(** * devdonalds: a cookbook registry and its recipe expander

    A shallow embedding of [src/backend/py_template/devdonalds.py]:
    the name normaliser [parse_handwriting], the entry-creation handler
    [create_entry], the recursive expander [_expand_to_ingredients] and
    the [summary] handler, followed by the properties of the
    specification that are settled against them.

    Conventions of the embedding.
    - A Python [str] is the list of its Unicode code points ([list N]);
      [py] turns a Rocq string literal into such a list.
    - A Python [int] is a [Z] (no wrap-around); [bool] is a subclass of
      [int] in Python, so [True]/[False] pass every [isinstance(_, int)]
      test and count as 1/0 in arithmetic.
    - The global [cookbook] dict is a [gmap] threaded through the
      handlers; the accumulator [acc] is an insertion-ordered dict, kept
      as an association list because [summary] reads it in order.
    - Exceptions are values of [exn]; the interpreter's recursion limit
      is the [depth] argument of the expander, and its limit on the
      digits of an int it prints is [max_str_digits]. *)

From Stdlib Require Import ZArith NArith List String Ascii Bool Lia.
From stdpp Require Import base tactics option list relations gmap.

Open Scope Z_scope.

(** ** Python strings *)

Abbreviation pystr := (list N).

Definition py (s : string) : pystr :=
  map N_of_ascii (list_ascii_of_string s).

(** [str.isspace] on one code point; it is also the class [\s] of a
    [str] pattern and the set removed by [str.strip()]. *)
Definition isspace (c : N) : bool :=
  ((9 <=? c) && (c <=? 13) || (28 <=? c) && (c <=? 32)
   || (c =? 133) || (c =? 160) || (c =? 5760)
   || (8192 <=? c) && (c <=? 8202)
   || (c =? 8232) || (c =? 8233) || (c =? 8239) || (c =? 8287)
   || (c =? 12288))%N.

(** The class [A-Za-z]. *)
Definition is_ascii_letter (c : N) : bool :=
  ((65 <=? c) && (c <=? 90) || (97 <=? c) && (c <=? 122))%N.

Definition space : N := 32%N.

(** [s.replace(old, new)] for one-character [old] and [new]. *)
Definition replace (old new : N) (s : pystr) : pystr :=
  map (fun c => if (c =? old)%N then new else c) s.

(** [re.sub(r'[^A-Za-z\s]', '', s)]. *)
Definition remove_non_letters (s : pystr) : pystr :=
  List.filter (fun c => is_ascii_letter c || isspace c) s.

(** [re.sub(r'\s+', ' ', s)]: every maximal run of whitespace becomes
    one space; [in_run] tells that the previous character was part of
    the run being replaced. *)
Fixpoint squash_from (in_run : bool) (s : pystr) : pystr :=
  match s with
  | [] => []
  | c :: rest =>
      if isspace c
      then (if in_run then squash_from true rest
            else space :: squash_from true rest)
      else c :: squash_from false rest
  end.

Definition squash_whitespace (s : pystr) : pystr := squash_from false s.

(** [str.strip()]. *)
Fixpoint lstrip (s : pystr) : pystr :=
  match s with
  | [] => []
  | c :: rest => if isspace c then lstrip rest else s
  end.

Definition rstrip (s : pystr) : pystr := rev (lstrip (rev s)).

Definition strip (s : pystr) : pystr := rstrip (lstrip s).

(** [s.split(' ')]: cut at every single space, empty words kept. *)
Fixpoint split_space (s : pystr) : list pystr :=
  match s with
  | [] => [[]]
  | c :: rest =>
      if (c =? space)%N then [] :: split_space rest
      else match split_space rest with
           | w :: ws => (c :: w) :: ws
           | [] => [[c]]
           end
  end.

(** [' '.join(words)]. *)
Fixpoint join_space (words : list pystr) : pystr :=
  match words with
  | [] => []
  | [w] => w
  | w :: rest => w ++ space :: join_space rest
  end.

(** [str.upper] and [str.lower], given on the ASCII letters, the only
    characters that reach them in [parse_handwriting] (see
    [cleaned_letters_or_space]). *)
Definition upper (c : N) : N :=
  if ((97 <=? c) && (c <=? 122))%N then (c - 32)%N else c.

Definition lower (c : N) : N :=
  if ((65 <=? c) && (c <=? 90))%N then (c + 32)%N else c.

(** [w[:1].upper() + w[1:].lower() if w else ''] *)
Definition capitalise (w : pystr) : pystr :=
  match w with
  | [] => []
  | c :: rest => upper c :: map lower rest
  end.

(** The string [s] of [parse_handwriting] after its three rewriting
    steps, before the emptiness test. *)
Definition cleaned (recipeName : pystr) : pystr :=
  let s := replace 95%N space (replace 45%N space recipeName) in
  let s := remove_non_letters s in
  strip (squash_whitespace s).

Definition parse_handwriting (recipeName : pystr) : option pystr :=
  let s := cleaned recipeName in
  if (length s =? 0)%nat then None
  else
    let words := split_space s in
    let words := map capitalise words in
    Some (join_space words).

(** ** JSON payloads

    What [request.get_json(silent=True)] hands to the handler: [JNull]
    is Python's [None] (also the value for a body that is not JSON). An
    object is the association list of its members, read by [dict_get];
    the keys of a decoded object are distinct, and [dict_get] takes the
    first binding of a key. *)

Set Warnings "-register-all".

Inductive json : Type :=
| JNull
| JBool (b : bool)
| JInt (z : Z)
| JFloat (bits : Z)
| JStr (s : pystr)
| JList (l : list json)
| JDict (d : list (pystr * json)).

(** [d.get(key)]: the member, or [None] when there is none. *)
Fixpoint dict_get (d : list (pystr * json)) (key : pystr) : json :=
  match d with
  | [] => JNull
  | (k, v) :: rest => if bool_decide (k = key) then v else dict_get rest key
  end.

(** [v == s] for a string literal [s]. *)
Definition eq_str (v : json) (s : pystr) : bool :=
  match v with
  | JStr t => bool_decide (t = s)
  | _ => false
  end.

(** [isinstance(v, int)], with the integer it denotes. *)
Definition as_int (v : json) : option Z :=
  match v with
  | JInt z => Some z
  | JBool b => Some (Z.b2z b)
  | _ => None
  end.

(** ** The helper route of task 1 *)

(** [d.get(key, default)]: unlike [dict_get], a member that is present
    and [null] is returned as such. *)
Fixpoint dict_get_default (d : list (pystr * json)) (key : pystr)
    (default : json) : json :=
  match d with
  | [] => default
  | (k, v) :: rest =>
      if bool_decide (k = key) then v else dict_get_default rest key default
  end.

(** What a call of [parse] ends in: [('Invalid recipe name', 400)],
    [(jsonify({'msg': parsed_name}), 200)], or an [AttributeError] that
    nothing in the route catches ([data] without [.get], or an [input]
    without [.replace]). *)
Inductive parse_reply : Type :=
| Parse400 (text : string)
| Parse200 (body : json)
| ParseAttributeError.

(** [data] is the decoded body, [request.get_json()]. *)
Definition parse (data : json) : parse_reply :=
  match data with
  | JDict data =>
      match dict_get_default data (py "input") (JStr []) with
      | JStr recipe_name =>
          match parse_handwriting recipe_name with
          | None => Parse400 "Invalid recipe name"
          | Some parsed_name => Parse200 (JDict [(py "msg", JStr parsed_name)])
          end
      | _ => ParseAttributeError
      end
  | _ => ParseAttributeError
  end.

(** ** Type definitions (the dataclasses)

    The fields follow the annotations of the dataclasses. [quantity] is
    kept dynamic because the expander tests it with [isinstance] again;
    an object of any other class stored in the cookbook is [OtherObject]. *)

Inductive pyval : Type :=
| PyInt (z : Z)
| PyNotInt.

Record RequiredItem : Type := mkRequiredItem {
  name : pystr;
  quantity : pyval
}.

Inductive CookbookEntry : Type :=
| Ingredient (name : pystr) (cook_time : Z)
| Recipe (name : pystr) (required_items : list RequiredItem)
| OtherObject.

(** The store: [cookbook: Dict[str, Union[Recipe, Ingredient]]]. *)
Abbreviation Cookbook := (gmap pystr CookbookEntry).

(** A handler's reply: [('', 400)] or [(jsonify(body), 200)]. *)
Inductive response (A : Type) : Type :=
| Status400
| Status200 (body : A).
Arguments Status400 {A}.
Arguments Status200 {A} body.

(** ** [TASK 2] create_entry *)

(** The [for item in required_items] loop; [None] is the early
    [return '', 400]. *)
Fixpoint parse_items (required_items : list json) (seen_names : gset pystr)
    (parsed_items : list RequiredItem) : option (list RequiredItem) :=
  match required_items with
  | [] => Some parsed_items
  | JDict item :: rest =>
      let item_name := dict_get item (py "name") in
      let quantity := dict_get item (py "quantity") in
      match item_name with
      | JStr item_name =>
          if (length (strip item_name) =? 0)%nat then None
          else match as_int quantity with
               | None => None
               | Some quantity =>
                   if bool_decide (item_name ∈ seen_names) then None
                   else parse_items rest ({[item_name]} ∪ seen_names)
                          (parsed_items ++ [mkRequiredItem item_name (PyInt quantity)])
               end
      | _ => None
      end
  | _ :: _ => None
  end.

(** [entry = data.get('entry') if isinstance(data.get('entry'), dict) else data] *)
Definition unwrap_entry (data : list (pystr * json)) : list (pystr * json) :=
  match dict_get data (py "entry") with
  | JDict entry => entry
  | _ => data
  end.

Definition create_entry (data : json) (cookbook : Cookbook)
    : response unit * Cookbook :=
  match data with
  | JDict data =>
      let entry := unwrap_entry data in
      let entry_type := dict_get entry (py "type") in
      let name := dict_get entry (py "name") in
      if negb (eq_str entry_type (py "recipe")
               || eq_str entry_type (py "ingredient"))
      then (Status400, cookbook)
      else
        match name with
        | JStr name =>
            if (length (strip name) =? 0)%nat then (Status400, cookbook)
            else if bool_decide (is_Some (cookbook !! name))
            then (Status400, cookbook)
            else if eq_str entry_type (py "ingredient") then
              match as_int (dict_get entry (py "cookTime")) with
              | Some cook_time =>
                  if cook_time <? 0 then (Status400, cookbook)
                  else (Status200 tt,
                        <[name := Ingredient name cook_time]> cookbook)
              | None => (Status400, cookbook)
              end
            else
              match dict_get entry (py "requiredItems") with
              | JList required_items =>
                  match parse_items required_items ∅ [] with
                  | Some parsed_items =>
                      (Status200 tt,
                       <[name := Recipe name parsed_items]> cookbook)
                  | None => (Status400, cookbook)
                  end
              | _ => (Status400, cookbook)
              end
        | _ => (Status400, cookbook)
        end
  | _ => (Status400, cookbook)
  end.

(** ** [TASK 3] the expander and summary *)

Inductive exn : Type :=
| KeyError (msg : string)
| ValueError (msg : string)
| RecursionError.

Inductive outcome (A : Type) : Type :=
| Return (v : A)
| Raise (e : exn).
Arguments Return {A} v.
Arguments Raise {A} e.

(** The accumulator [acc: Dict[str, int]], in insertion order. *)
Abbreviation Acc := (list (pystr * Z)).

(** [acc.get(key, default)] *)
Fixpoint acc_get (acc : Acc) (key : pystr) (default : Z) : Z :=
  match acc with
  | [] => default
  | (k, v) :: rest =>
      if bool_decide (k = key) then v else acc_get rest key default
  end.

(** [acc[key] = value]: a present key keeps its place, a new one goes
    to the end. *)
Fixpoint acc_set (acc : Acc) (key : pystr) (value : Z) : Acc :=
  match acc with
  | [] => [(key, value)]
  | (k, v) :: rest =>
      if bool_decide (k = key) then (k, value) :: rest
      else (k, v) :: acc_set rest key value
  end.

(** The [for req in entry.required_items] loop of a recipe node, over
    the recursive call [visit]; [acc] is the one dict shared by all the
    calls, so it comes back changed also when an exception is raised. *)
Fixpoint expand_items (visit : pystr -> Z -> Acc -> outcome Z * Acc)
    (required_items : list RequiredItem) (multiplier total : Z) (acc : Acc)
    : outcome Z * Acc :=
  match required_items with
  | [] => (Return total, acc)
  | req :: rest =>
      match quantity req with
      | PyNotInt => (Raise (ValueError "bad quantity"), acc)
      | PyInt q =>
          match visit (name req) (multiplier * q) acc with
          | (Return t, acc) =>
              expand_items visit rest multiplier (total + t) acc
          | (Raise e, acc) => (Raise e, acc)
          end
      end
  end.

(** [depth] is the number of nested calls the interpreter still allows:
    the call that would exceed it raises [RecursionError], which is how
    Python ends a recursion that the code itself never bounds. *)
Fixpoint _expand_to_ingredients (depth : nat) (cookbook : Cookbook)
    (entry_name : pystr) (multiplier : Z) (acc : Acc) : outcome Z * Acc :=
  match depth with
  | O => (Raise RecursionError, acc)
  | S depth =>
      match cookbook !! entry_name with
      | None => (Raise (KeyError "missing entry"), acc)
      | Some (Ingredient name cook_time) =>
          (Return (cook_time * multiplier),
           acc_set acc name (acc_get acc name 0 + multiplier))
      | Some (Recipe _ required_items) =>
          expand_items (_expand_to_ingredients depth cookbook)
            required_items multiplier 0 acc
      | Some OtherObject => (Raise (ValueError "unknown entry type"), acc)
      end
  end.

(** [[{'name': ing_name, 'quantity': qty} for ing_name, qty in acc.items()]] *)
Definition ingredients_list (acc : Acc) : list json :=
  map (fun '(ing_name, qty) =>
         JDict [(py "name", JStr ing_name); (py "quantity", JInt qty)]) acc.

(** [jsonify(body)] prints every int of [body] in decimal, and CPython
    refuses to convert an int of more than [sys.get_int_max_str_digits()]
    digits (4300 unless reconfigured): it raises [ValueError]. Strings,
    floats, booleans and [None] always print. *)
Definition max_str_digits : Z := 4300.

Definition int_repr_ok (z : Z) : bool := Z.abs z <? 10 ^ max_str_digits.

Fixpoint serialisable (v : json) : bool :=
  match v with
  | JInt z => int_repr_ok z
  | JList l => forallb serialisable l
  | JDict d => forallb (fun kv => serialisable (snd kv)) d
  | _ => true
  end.

Definition jsonify (body : json) : outcome json :=
  if serialisable body then Return body
  else Raise (ValueError "Exceeds the limit for integer string conversion").

(** [name] is [request.args.get('name', type=str)]; every exception is
    caught and answered with 400, the one [jsonify] raises included. The
    handler returns the cookbook it leaves behind, like [create_entry]. *)
Definition summary (depth : nat) (name : option pystr) (cookbook : Cookbook)
    : response json * Cookbook :=
  match name with
  | None => (Status400, cookbook)
  | Some name =>
      if (length name =? 0)%nat || (length (strip name) =? 0)%nat
      then (Status400, cookbook)
      else
        match cookbook !! name with
        | None => (Status400, cookbook)
        | Some (Ingredient _ _) => (Status400, cookbook)
        | Some OtherObject => (Status400, cookbook)
        | Some (Recipe _ _) =>
            match _expand_to_ingredients depth cookbook name 1 [] with
            | (Return total_time, acc) =>
                match jsonify
                        (JDict [(py "name", JStr name);
                                (py "cookTime", JInt total_time);
                                (py "ingredients", JList (ingredients_list acc))])
                with
                | Return body => (Status200 body, cookbook)
                | Raise _ => (Status400, cookbook)
                end
            | (Raise _, _) => (Status400, cookbook)
            end
        end
  end.

(** ** Requests against one store *)

Inductive request : Type :=
| POST_entry (data : json)
| GET_summary (name : option pystr).

Inductive reply : Type :=
| EntryReply (r : response unit)
| SummaryReply (r : response json).

Definition handle (depth : nat) (req : request) (cookbook : Cookbook)
    : reply * Cookbook :=
  match req with
  | POST_entry data =>
      let (r, cookbook) := create_entry data cookbook in (EntryReply r, cookbook)
  | GET_summary name =>
      let (r, cookbook) := summary depth name cookbook in (SummaryReply r, cookbook)
  end.

(** The stores the running server can hold: it starts empty and only
    [create_entry] writes to it. *)
Inductive reachable : Cookbook -> Prop :=
| reachable_empty : reachable ∅
| reachable_create data cookbook :
    reachable cookbook -> reachable (create_entry data cookbook).2.

(** ** The reference graph of a store *)

(** [a] is a recipe of the store and lists [b] among its required
    items. *)
Definition requires (cookbook : Cookbook) (a b : pystr) : Prop :=
  ∃ n required_items,
    cookbook !! a = Some (Recipe n required_items) ∧
    b ∈ map name required_items.

(** ** Vocabulary of the properties *)

(** The [name] member of the entry that [create_entry] reads from a
    payload, after the optional ["entry"] wrapper is removed. *)
Definition payload_name (data : json) : json :=
  match data with
  | JDict data => dict_get (unwrap_entry data) (py "name")
  | _ => JNull
  end.

(** The [name] member of one element of [requiredItems]. *)
Definition item_name_of (item : json) : json :=
  match item with
  | JDict item => dict_get item (py "name")
  | _ => JNull
  end.

(** An entry as [create_entry] builds it under the key [key]. *)
Definition well_formed_entry (key : pystr) (e : CookbookEntry) : Prop :=
  (∃ cook_time, e = Ingredient key cook_time ∧ 0 <= cook_time) ∨
  (∃ required_items,
      e = Recipe key required_items ∧
      Forall (λ req, ∃ q, quantity req = PyInt q) required_items ∧
      NoDup (map name required_items)).

Definition well_formed (cookbook : Cookbook) : Prop :=
  ∀ key e, cookbook !! key = Some e → well_formed_entry key e.

(** The call of the expander on [entry_name] returns normally, for some
    multiplier and accumulator (neither influences the control flow). *)
Definition returns (depth : nat) (cookbook : Cookbook) (entry_name : pystr)
    : Prop :=
  ∃ multiplier acc total acc',
    _expand_to_ingredients depth cookbook entry_name multiplier acc
    = (Return total, acc').

(** Some entry reached from [root] lists a sub-item that the store does
    not hold. *)
Definition missing_reference (cookbook : Cookbook) (root : pystr) : Prop :=
  ∃ a b, rtc (requires cookbook) root a ∧ requires cookbook a b ∧
         cookbook !! b = None.

(** What the [isinstance] tests of the expander guard against at [key]:
    an object that is neither class, or a quantity that is not an int. *)
Definition ill_typed (cookbook : Cookbook) (key : pystr) : Prop :=
  cookbook !! key = Some OtherObject ∨
  ∃ n required_items req,
    cookbook !! key = Some (Recipe n required_items) ∧
    req ∈ required_items ∧ quantity req = PyNotInt.

(** [acc[key] = acc.get(key, 0) + amount], the update at a leaf. *)
Definition acc_add (acc : Acc) (key : pystr) (amount : Z) : Acc :=
  acc_set acc key (acc_get acc key 0 + amount).

(** The paths from [entry_name] down to ingredient leaves, in the order
    of the traversal: the quantities on the edges of the path, then the
    leaf's name and cook time. Paths longer than [depth] are cut. *)
Fixpoint leaf_paths (depth : nat) (cookbook : Cookbook) (entry_name : pystr)
    : list (list Z * pystr * Z) :=
  match depth with
  | O => []
  | S depth =>
      match cookbook !! entry_name with
      | Some (Ingredient n cook_time) => [([], n, cook_time)]
      | Some (Recipe _ required_items) =>
          flat_map
            (λ req,
               match quantity req with
               | PyInt q =>
                   map (λ '(qs, n, cook_time), (q :: qs, n, cook_time))
                     (leaf_paths depth cookbook (name req))
               | PyNotInt => []
               end)
            required_items
      | _ => []
      end
  end.

(** The product of the quantities along a path. *)
Definition product (qs : list Z) : Z := fold_right Z.mul 1 qs.

(** Sum over the leaves of cook time times multiplier. *)
Definition total_of (multiplier : Z) (paths : list (list Z * pystr * Z)) : Z :=
  fold_right (λ '(qs, _, cook_time) sum,
                cook_time * (multiplier * product qs) + sum) 0 paths.

(** Every leaf adds its multiplier to the accumulator, in order. *)
Definition acc_of (multiplier : Z) (paths : list (list Z * pystr * Z))
    (acc : Acc) : Acc :=
  fold_left (λ acc '(qs, n, _), acc_add acc n (multiplier * product qs))
    paths acc.

(** What lies behind each exception that leaves the expander called on
    [root]. *)
Definition raise_cause (cookbook : Cookbook) (root : pystr) (e : exn) : Prop :=
  match e with
  | RecursionError => True
  | KeyError _ => cookbook !! root = None ∨ missing_reference cookbook root
  | ValueError _ => ∃ b, rtc (requires cookbook) root b ∧ ill_typed cookbook b
  end.

(** The object [summary] hands to [jsonify]. *)
Definition summary_body (name : pystr) (total_time : Z) (acc : Acc) : json :=
  JDict [(py "name", JStr name); (py "cookTime", JInt total_time);
         (py "ingredients", JList (ingredients_list acc))].

(** ** The expansion in the words of the specification

    Modelled on section 4.4 of the specification, for comparison with
    [_expand_to_ingredients]: an accumulator mapping from ingredient name
    to cumulative quantity and a running total cook time are threaded
    through the whole recursion; [first_seen] is the order in which the
    names entered the mapping, the order of the result. There is no
    depth here: a visit is a finite derivation. *)
Record VisitState : Type := mkVisitState {
  running_total : Z;
  accumulator : gmap pystr Z;
  first_seen : list pystr
}.

(** At an ingredient: add [multiplier] to the accumulator entry for the
    ingredient's name (creating it at 0 if first seen) and add
    [cookTime * multiplier] to the running total. *)
Definition spec_leaf (k : pystr) (cookTime multiplier : Z) (σ : VisitState)
    : VisitState :=
  {| running_total := running_total σ + cookTime * multiplier;
     accumulator :=
       <[k := default 0 (accumulator σ !! k) + multiplier]> (accumulator σ);
     first_seen :=
       if bool_decide (k ∈ first_seen σ) then first_seen σ
       else first_seen σ ++ [k] |}.

(** [visit(itemName, multiplier)]: an ingredient is a leaf; at a recipe
    each [(subName, subQuantity)] is visited in turn with
    [multiplier * subQuantity]. A name that is absent has no visit. *)
Inductive spec_visit (cookbook : Cookbook)
    : pystr → Z → VisitState → VisitState → Prop :=
| spec_visit_ingredient itemName multiplier k cookTime σ :
    cookbook !! itemName = Some (Ingredient k cookTime) →
    spec_visit cookbook itemName multiplier σ (spec_leaf k cookTime multiplier σ)
| spec_visit_recipe itemName multiplier k requiredItems σ σ' :
    cookbook !! itemName = Some (Recipe k requiredItems) →
    spec_visit_each cookbook requiredItems multiplier σ σ' →
    spec_visit cookbook itemName multiplier σ σ'
with spec_visit_each (cookbook : Cookbook)
    : list RequiredItem → Z → VisitState → VisitState → Prop :=
| spec_visit_each_nil multiplier σ :
    spec_visit_each cookbook [] multiplier σ σ
| spec_visit_each_cons req rest subQuantity multiplier σ σ1 σ' :
    quantity req = PyInt subQuantity →
    spec_visit cookbook (name req) (multiplier * subQuantity) σ σ1 →
    spec_visit_each cookbook rest multiplier σ1 σ' →
    spec_visit_each cookbook (req :: rest) multiplier σ σ'.

Scheme spec_visit_mut := Induction for spec_visit Sort Prop
  with spec_visit_each_mut := Induction for spec_visit_each Sort Prop.

(** The state of the specification that a running total and a dict of
    the code stand for. *)
Definition visit_state_of (total : Z) (acc : Acc) : VisitState :=
  {| running_total := total;
     accumulator := list_to_map acc;
     first_seen := acc.*1 |}.

(** ** The expander over the interpreter's state

    The same code with nothing passed behind its back: the module global
    [cookbook] and the dict that [acc] refers to make up the state every
    call receives and hands on, so that a write to either would show. *)
Record World : Type := mkWorld {
  world_cookbook : Cookbook;
  world_acc : Acc
}.

Fixpoint expand_items_in (visit : pystr → Z → World → outcome Z * World)
    (required_items : list RequiredItem) (multiplier total : Z) (w : World)
    : outcome Z * World :=
  match required_items with
  | [] => (Return total, w)
  | req :: rest =>
      match quantity req with
      | PyNotInt => (Raise (ValueError "bad quantity"), w)
      | PyInt q =>
          match visit (name req) (multiplier * q) w with
          | (Return t, w) =>
              expand_items_in visit rest multiplier (total + t) w
          | (Raise e, w) => (Raise e, w)
          end
      end
  end.

Fixpoint _expand_to_ingredients_in (depth : nat) (entry_name : pystr)
    (multiplier : Z) (w : World) : outcome Z * World :=
  match depth with
  | O => (Raise RecursionError, w)
  | S depth =>
      match world_cookbook w !! entry_name with
      | None => (Raise (KeyError "missing entry"), w)
      | Some (Ingredient name cook_time) =>
          (Return (cook_time * multiplier),
           mkWorld (world_cookbook w)
             (acc_set (world_acc w) name
                (acc_get (world_acc w) name 0 + multiplier)))
      | Some (Recipe _ required_items) =>
          expand_items_in (_expand_to_ingredients_in depth)
            required_items multiplier 0 w
      | Some OtherObject => (Raise (ValueError "unknown entry type"), w)
      end
  end.

(** [summary] in the same form: it starts the expander on the store it
    finds and a fresh dict, and what it returns as the store is what the
    expander left. *)
Definition summary_in (depth : nat) (name : option pystr) (cookbook : Cookbook)
    : response json * Cookbook :=
  match name with
  | None => (Status400, cookbook)
  | Some name =>
      if (length name =? 0)%nat || (length (strip name) =? 0)%nat
      then (Status400, cookbook)
      else
        match cookbook !! name with
        | None => (Status400, cookbook)
        | Some (Ingredient _ _) => (Status400, cookbook)
        | Some OtherObject => (Status400, cookbook)
        | Some (Recipe _ _) =>
            match _expand_to_ingredients_in depth name 1 (mkWorld cookbook []) with
            | (Return total_time, w) =>
                match jsonify (summary_body name total_time (world_acc w)) with
                | Return body => (Status200 body, world_cookbook w)
                | Raise _ => (Status400, world_cookbook w)
                end
            | (Raise _, w) => (Status400, world_cookbook w)
            end
        end
  end.

(** The names of a list in the order of their first occurrence, after
    those of [seen]. *)
Definition first_seen_order (seen names : list pystr) : list pystr :=
  fold_left (λ seen k, if bool_decide (k ∈ seen) then seen else seen ++ [k])
    names seen.

(** ** Vocabulary of the further properties *)

Definition is_upper (c : N) : bool := ((65 <=? c) && (c <=? 90))%N.

Definition is_lower (c : N) : bool := ((97 <=? c) && (c <=? 122))%N.

(** A word as [parse_handwriting] writes it: one upper-case ASCII
    letter, then lower-case ASCII letters only. *)
Definition capitalised (w : pystr) : Prop :=
  ∃ c rest, w = c :: rest ∧ is_upper c = true ∧
            Forall (λ x, is_lower x = true) rest.

(** The payloads a client sends for an ingredient, for one required
    item and for a recipe. *)
Definition ingredient_json (n : pystr) (cook_time : json) : json :=
  JDict [(py "type", JStr (py "ingredient")); (py "name", JStr n);
         (py "cookTime", cook_time)].

Definition item_json (item : pystr * Z) : json :=
  JDict [(py "name", JStr item.1); (py "quantity", JInt item.2)].

Definition recipe_json (n : pystr) (items : list (pystr * Z)) : json :=
  JDict [(py "type", JStr (py "recipe")); (py "name", JStr n);
         (py "requiredItems", JList (map item_json items))].

(** The item a recipe stores for the pair [(name, quantity)]. *)
Definition required (item : pystr * Z) : RequiredItem :=
  mkRequiredItem item.1 (PyInt item.2).

(** The requests of a session served in order, with the replies. *)
Fixpoint run (depth : nat) (reqs : list request) (cookbook : Cookbook)
    : list reply * Cookbook :=
  match reqs with
  | [] => ([], cookbook)
  | req :: rest =>
      let (r, cookbook) := handle depth req cookbook in
      let (rs, cookbook) := run depth rest cookbook in
      (r :: rs, cookbook)
  end.

(** The sum, over the leaves named [key], of the multiplier that
    reaches them. *)
Definition quantity_of (key : pystr) (multiplier : Z)
    (paths : list (list Z * pystr * Z)) : Z :=
  fold_right (λ '(qs, n, _) sum,
                (if bool_decide (n = key) then multiplier * product qs else 0)
                + sum) 0 paths.

(** No cook time and no quantity of the store is negative. *)
Definition nonnegative (cookbook : Cookbook) : Prop :=
  ∀ key e, cookbook !! key = Some e →
    match e with
    | Ingredient _ cook_time => 0 <= cook_time
    | Recipe _ required_items =>
        Forall (λ req, ∀ q, quantity req = PyInt q → 0 <= q) required_items
    | OtherObject => True
    end.

(** Every required item of every recipe is in the store. *)
Definition closed (cookbook : Cookbook) : Prop :=
  ∀ a b, requires cookbook a b → is_Some (cookbook !! b).

(** What the outcome of a call is, without the value returned. *)
Definition shape (r : outcome Z * Acc) : option exn :=
  match r.1 with
  | Return _ => None
  | Raise e => Some e
  end.

(** No two spaces in a row. *)
Fixpoint single_spaced (s : pystr) : Prop :=
  match s with
  | [] => True
  | c :: rest => (c = space → head rest ≠ Some space) ∧ single_spaced rest
  end.

(** What [create_entry] guarantees of an entry stored under [key]: the
    key is not blank and is the entry's own name, a cook time is not
    negative, and the required items of a recipe have distinct,
    non-blank names and int quantities. *)
Definition tidy_entry (key : pystr) (e : CookbookEntry) : Prop :=
  strip key ≠ [] ∧
  match e with
  | Ingredient n cook_time => n = key ∧ 0 <= cook_time
  | Recipe n required_items =>
      n = key ∧ NoDup (map name required_items) ∧
      Forall (λ req, strip (name req) ≠ [] ∧ ∃ q, quantity req = PyInt q)
        required_items
  | OtherObject => False
  end.

(** * Properties *)

(** ** NameNormalizer *)

Section parse_handwriting_facts.

Lemma replace_no_letters old new s :
  is_ascii_letter new = false →
  Forall (λ c, is_ascii_letter c = false) s →
  Forall (λ c, is_ascii_letter c = false) (replace old new s).
Proof.
  intros Hnew Hs. unfold replace. apply Forall_map.
  eapply Forall_impl; [exact Hs|]. intros c Hc. simpl.
  by destruct (c =? old)%N.
Qed.

Lemma remove_non_letters_spaces s :
  Forall (λ c, is_ascii_letter c = false) s →
  Forall (λ c, isspace c = true) (remove_non_letters s).
Proof.
  unfold remove_non_letters. induction 1 as [|c s Hc _ IH]; simpl.
  - constructor.
  - rewrite Hc. simpl. destruct (isspace c) eqn:E; [by constructor|done].
Qed.

Lemma squash_from_spaces b s :
  Forall (λ c, isspace c = true) s →
  Forall (λ c, isspace c = true) (squash_from b s).
Proof.
  intros Hs. revert b. induction Hs as [|c s Hc _ IH]; intros b; simpl.
  - constructor.
  - rewrite Hc. destruct b; [apply IH|]. constructor; [reflexivity|apply IH].
Qed.

Lemma lstrip_spaces s : Forall (λ c, isspace c = true) s → lstrip s = [].
Proof. induction 1 as [|c s Hc _ IH]; simpl; [done|by rewrite Hc]. Qed.

Lemma strip_spaces s : Forall (λ c, isspace c = true) s → strip s = [].
Proof. intros Hs. unfold strip, rstrip. by rewrite (lstrip_spaces s Hs). Qed.

Lemma lstrip_Forall (P : N → Prop) s : Forall P s → Forall P (lstrip s).
Proof.
  induction 1 as [|c s Hc Hs IH]; simpl; [constructor|].
  destruct (isspace c); [done|by constructor].
Qed.

Lemma strip_Forall (P : N → Prop) s : Forall P s → Forall P (strip s).
Proof.
  intros Hs. unfold strip, rstrip.
  apply Forall_rev, lstrip_Forall, Forall_rev, lstrip_Forall, Hs.
Qed.

Lemma squash_from_letters_or_space b s :
  Forall (λ c, is_ascii_letter c || isspace c = true) s →
  Forall (λ c, is_ascii_letter c = true ∨ c = space) (squash_from b s).
Proof.
  intros Hs. revert b. induction Hs as [|c s Hc _ IH]; intros b; simpl.
  - constructor.
  - destruct (isspace c) eqn:E.
    + destruct b; [apply IH|]. constructor; [by right|apply IH].
    + rewrite orb_false_r in Hc. constructor; [by left|apply IH].
Qed.

(** Past the three rewriting steps only ASCII letters and single
    spaces are left, so [upper] and [lower] see nothing else. *)
Lemma cleaned_letters_or_space recipeName :
  Forall (λ c, is_ascii_letter c = true ∨ c = space) (cleaned recipeName).
Proof.
  unfold cleaned. apply strip_Forall, squash_from_letters_or_space.
  unfold remove_non_letters. apply Forall_forall. intros c Hc.
  apply list_elem_of_In, filter_In in Hc. tauto.
Qed.

End parse_handwriting_facts.

(** C6: a raw string without any ASCII letter (separators, punctuation,
    digits and whitespace only, whatever their code points) is rejected:
    [parse_handwriting] returns [None]. *)
Theorem parse_handwriting_no_letters_rejected (recipeName : pystr) :
  Forall (λ c, is_ascii_letter c = false) recipeName →
  parse_handwriting recipeName = None.
Proof.
  intros H. unfold parse_handwriting, cleaned.
  rewrite strip_spaces; [reflexivity|].
  apply squash_from_spaces, remove_non_letters_spaces.
  by do 2 (apply replace_no_letters; [reflexivity|]).
Qed.

Lemma parse_handwriting_no_letters_rejected_witness :
  Forall (λ c, is_ascii_letter c = false) (py " -_ 42 !? ") ∧
  parse_handwriting (py " -_ 42 !? ") = None.
Proof.
  assert (H : Forall (λ c, is_ascii_letter c = false) (py " -_ 42 !? "))
    by (repeat constructor).
  split; [exact H|].
  exact (parse_handwriting_no_letters_rejected _ H).
Defined.

(** C7: [parse_handwriting] maps "fried-rice_2" to "Fried Rice" (hyphen
    and underscore become spaces, the digit is dropped, each word is
    capitalised) and "   chicken   soup " to "Chicken Soup" (runs of
    whitespace collapse, the ends are trimmed). *)
Theorem parse_handwriting_examples :
  parse_handwriting (py "fried-rice_2") = Some (py "Fried Rice") ∧
  parse_handwriting (py "   chicken   soup ") = Some (py "Chicken Soup").
Proof. split; vm_compute; reflexivity. Qed.

(** ** EntryValidator and CookbookStore *)

Section create_entry_facts.

Lemma parse_items_well_formed required_items seen_names parsed_items res :
  parse_items required_items seen_names parsed_items = Some res →
  (∀ x, x ∈ map name parsed_items → x ∈ seen_names) →
  Forall (λ req, ∃ q, quantity req = PyInt q) parsed_items →
  NoDup (map name parsed_items) →
  Forall (λ req, ∃ q, quantity req = PyInt q) res ∧ NoDup (map name res).
Proof.
  revert seen_names parsed_items.
  induction required_items as [|item rest IH]; intros seen parsed; simpl.
  - intros [= <-]; auto.
  - intros Hres Hseen Hq Hnd. repeat case_match; simplify_eq.
    apply IH in Hres; [done| | |].
    + intros x. rewrite map_app, elem_of_app. simpl.
      rewrite list_elem_of_singleton, elem_of_union, elem_of_singleton.
      intros [Hx| ->]; [right; by apply Hseen|by left].
    + apply Forall_app; split; [done|]. repeat constructor. by eexists.
    + rewrite map_app. simpl. apply NoDup_app. split_and!; [done| |].
      * intros x Hx ->%list_elem_of_singleton.
        apply Hseen in Hx.
        match goal with
        | H : bool_decide (_ ∈ _) = false |- _ =>
            by apply bool_decide_eq_false in H
        end.
      * apply NoDup_singleton.
Qed.

Lemma parse_items_distinct required_items seen_names parsed_items res :
  parse_items required_items seen_names parsed_items = Some res →
  NoDup (map item_name_of required_items) ∧
  ∀ item, item ∈ required_items →
    ∃ s, item_name_of item = JStr s ∧ s ∉ seen_names.
Proof.
  revert seen_names parsed_items.
  induction required_items as [|item rest IH]; intros seen parsed; simpl.
  - intros _. split; [constructor|]. intros item Hin. by apply elem_of_nil in Hin.
  - intros Hres.
    destruct item as [| | | | | |d]; try done.
    destruct (dict_get d (py "name")) as [| | | |s| |] eqn:Hname; try done.
    repeat case_match; simplify_eq.
    match goal with
    | H : bool_decide (_ ∈ _) = false |- _ =>
        apply bool_decide_eq_false in H; rename H into Hfresh
    end.
    apply IH in Hres as [Hnd Hall]. split.
    + constructor; [|done]. simpl. intros Hin.
      apply list_elem_of_fmap in Hin as (item & Heq & Hin).
      destruct (Hall item Hin) as (s' & Hs' & Hnot).
      rewrite Hs', Hname in Heq. simplify_eq.
      apply Hnot, elem_of_union_l, elem_of_singleton. done.
    + intros item [->|Hin]%elem_of_cons.
      * simpl. eauto.
      * destruct (Hall item Hin) as (s' & Hs' & Hnot).
        exists s'. split; [done|].
        intros Hs. apply Hnot, elem_of_union_r, Hs.
Qed.

(** The two ways [create_entry] ends. *)
Lemma create_entry_cases data cookbook :
  create_entry data cookbook = (Status400, cookbook) ∨
  ∃ key e,
    payload_name data = JStr key ∧
    cookbook !! key = None ∧
    well_formed_entry key e ∧
    create_entry data cookbook = (Status200 tt, <[key := e]> cookbook).
Proof.
  unfold create_entry, payload_name.
  destruct data as [| | | | |l|d]; try (by left).
  repeat case_match; try (by left); right.
  all: match goal with
       | H : bool_decide (is_Some _) = false |- _ =>
           apply bool_decide_eq_false in H;
           rewrite <-eq_None_not_Some in H
       end.
  - eexists _, _. split_and!; [done..| |done].
    left. eexists. split; [done|]. lia.
  - eexists _, _. split_and!; [done..| |done].
    right. eexists. split; [done|].
    eapply parse_items_well_formed; [done| | |]; [|constructor..].
    intros x Hx. by apply elem_of_nil in Hx.
Qed.

Lemma create_entry_duplicate data cookbook key :
  payload_name data = JStr key →
  is_Some (cookbook !! key) →
  create_entry data cookbook = (Status400, cookbook).
Proof.
  unfold create_entry, payload_name. intros Hname Hin.
  destruct data as [| | | | |l|d]; try done.
  rewrite Hname.
  rewrite (bool_decide_eq_true_2 _ Hin).
  by repeat case_match.
Qed.

End create_entry_facts.

(** C4: entry creation is atomic and keeps names unique. A rejected
    request leaves the store as it was; and once a payload named [key]
    has been accepted, any later payload with the same name, of either
    kind, is rejected and the store still holds the first entry and
    nothing else new. *)
Theorem create_entry_atomic_and_unique (data1 data2 : json) (cookbook : Cookbook) :
  ((create_entry data1 cookbook).1 = Status400 →
   (create_entry data1 cookbook).2 = cookbook) ∧
  (∀ key,
     (create_entry data1 cookbook).1 = Status200 tt →
     payload_name data1 = JStr key →
     payload_name data2 = JStr key →
     let cookbook1 := (create_entry data1 cookbook).2 in
     ∃ first,
       cookbook !! key = None ∧
       cookbook1 = <[key := first]> cookbook ∧
       create_entry data2 cookbook1 = (Status400, cookbook1)).
Proof.
  destruct (create_entry_cases data1 cookbook)
    as [Hrej|(key1 & e & Hname & Hfresh & _ & Hacc)].
  - rewrite Hrej. split; [done|]. intros key [=].
  - rewrite Hacc. split; [intros [=]|].
    intros key _ Hkey Hkey2. simpl. rewrite Hname in Hkey. simplify_eq.
    exists e. split_and!; [done..|].
    apply (create_entry_duplicate _ _ key Hkey2).
    rewrite lookup_insert_eq. by eexists.
Qed.

(** C5: a recipe payload whose [requiredItems] holds two elements with
    the same [name] is rejected, and the store is returned unchanged. *)
Theorem create_entry_rejects_repeated_item
    (data : list (pystr * json)) (cookbook : Cookbook)
    (required_items : list json) (i j : nat) (item1 item2 : list (pystr * json)) :
  eq_str (dict_get (unwrap_entry data) (py "type")) (py "recipe") = true →
  dict_get (unwrap_entry data) (py "requiredItems") = JList required_items →
  required_items !! i = Some (JDict item1) →
  required_items !! j = Some (JDict item2) →
  i ≠ j →
  dict_get item1 (py "name") = dict_get item2 (py "name") →
  create_entry (JDict data) cookbook = (Status400, cookbook).
Proof.
  intros Htype Hitems Hi Hj Hij Hsame.
  assert (parse_items required_items ∅ [] = None) as Hparse.
  { destruct (parse_items required_items ∅ []) as [res|] eqn:E; [|done].
    apply parse_items_distinct in E as [Hnd _].
    destruct Hij. eapply NoDup_lookup; [exact Hnd| |].
    - rewrite list_lookup_fmap, Hi. reflexivity.
    - rewrite list_lookup_fmap, Hj. simpl. by rewrite Hsame. }
  unfold create_entry. rewrite Hitems, Hparse.
  destruct (dict_get (unwrap_entry data) (py "type")) as [| | | |t| |]; try done.
  simpl in Htype. apply bool_decide_eq_true in Htype as ->.
  by repeat case_match.
Qed.

Lemma create_entry_rejects_repeated_item_witness :
  create_entry
    (JDict [(py "type", JStr (py "recipe")); (py "name", JStr (py "Stew"));
            (py "requiredItems",
             JList [JDict [(py "name", JStr (py "Beef")); (py "quantity", JInt 1)];
                    JDict [(py "name", JStr (py "Beef")); (py "quantity", JInt 2)]])])
    ∅ = (Status400, ∅).
Proof.
  apply (create_entry_rejects_repeated_item _ _
           [JDict [(py "name", JStr (py "Beef")); (py "quantity", JInt 1)];
            JDict [(py "name", JStr (py "Beef")); (py "quantity", JInt 2)]]
           0 1
           [(py "name", JStr (py "Beef")); (py "quantity", JInt 1)]
           [(py "name", JStr (py "Beef")); (py "quantity", JInt 2)]);
    first [reflexivity | lia].
Defined.

Lemma create_entry_atomic_and_unique_witness :
  let egg := JDict [(py "type", JStr (py "ingredient"));
                    (py "name", JStr (py "Egg")); (py "cookTime", JInt 3)] in
  let egg' := JDict [(py "type", JStr (py "recipe"));
                     (py "name", JStr (py "Egg")); (py "requiredItems", JList [])] in
  create_entry egg' (create_entry egg ∅).2 = (Status400, (create_entry egg ∅).2).
Proof.
  intros egg egg'.
  destruct (create_entry_atomic_and_unique egg egg' ∅) as [_ H].
  destruct (H (py "Egg")) as (first & _ & _ & H3); [reflexivity..|].
  exact H3.
Defined.

(** C10 as stated fails: an object [E] whose own ["entry"] member is an
    object is itself unwrapped when it is sent directly, so sending [E]
    creates the inner entry while sending [{"entry": E}] validates [E]
    (here without a type) and rejects it. *)
Lemma create_entry_wrapped_differs :
  let E := [(py "entry",
             JDict [(py "type", JStr (py "ingredient"));
                    (py "name", JStr (py "Salt")); (py "cookTime", JInt 0)])] in
  (create_entry (JDict [(py "entry", JDict E)]) ∅).1 = Status400 ∧
  (create_entry (JDict E) ∅).1 = Status200 tt.
Proof. split; reflexivity. Qed.

(** C10, amended: for every JSON object [E] whose own ["entry"] member
    is not an object, the wrapped payload [{"entry": E}] is handled
    exactly as [E] sent directly: same reply and same resulting store. *)
Theorem create_entry_wrapped_same (E : list (pystr * json)) (cookbook : Cookbook) :
  (∀ inner, dict_get E (py "entry") ≠ JDict inner) →
  create_entry (JDict [(py "entry", JDict E)]) cookbook =
  create_entry (JDict E) cookbook.
Proof.
  intros Hplain. unfold create_entry.
  replace (unwrap_entry [(py "entry", JDict E)]) with E by reflexivity.
  replace (unwrap_entry E) with E; [reflexivity|].
  unfold unwrap_entry.
  destruct (dict_get E (py "entry")) as [| | | | | |inner]; try reflexivity.
  by destruct (Hplain inner).
Qed.

Lemma create_entry_wrapped_same_witness :
  let E := [(py "type", JStr (py "ingredient"));
            (py "name", JStr (py "Salt")); (py "cookTime", JInt 0)] in
  create_entry (JDict [(py "entry", JDict E)]) ∅ = create_entry (JDict E) ∅.
Proof.
  intros E. apply (create_entry_wrapped_same E ∅).
  intros inner. vm_compute. discriminate.
Defined.

(** ** RecipeExpander *)

Section expander_facts.

Variable cookbook : Cookbook.

Lemma expand_items_returns visit required_items multiplier total acc t acc' :
  expand_items visit required_items multiplier total acc = (Return t, acc') →
  Forall (λ req, ∃ q m a t' a',
            quantity req = PyInt q ∧
            visit (name req) m a = (Return t', a')) required_items.
Proof.
  revert total acc.
  induction required_items as [|req rest IH]; intros total acc; simpl.
  - constructor.
  - destruct (quantity req) as [q|] eqn:Hq; [|done].
    destruct (visit (name req) (multiplier * q) acc) as [[t1|e] acc1] eqn:Hv;
      [|done].
    intros Hrest. constructor; [|by eapply IH]. by eexists q, _, _, _, _.
Qed.

Lemma returns_zero entry_name : ¬ returns 0 cookbook entry_name.
Proof. by intros (m & acc & t & acc' & H). Qed.

Lemma returns_present depth entry_name :
  returns depth cookbook entry_name →
  (∃ n cook_time, cookbook !! entry_name = Some (Ingredient n cook_time)) ∨
  (∃ n required_items, cookbook !! entry_name = Some (Recipe n required_items)).
Proof.
  intros (m & acc & t & acc' & H). destruct depth as [|d]; [done|].
  simpl in H. destruct (cookbook !! entry_name) as [[]|]; try done; eauto.
Qed.

(** One edge down costs one level of depth. *)
Lemma returns_requires depth a b :
  returns depth cookbook a → requires cookbook a b →
  ∃ depth', depth = S depth' ∧ returns depth' cookbook b.
Proof.
  intros (m & acc & t & acc' & H) (n & items & Ha & Hb).
  destruct depth as [|d]; [done|]. exists d. split; [done|].
  simpl in H. rewrite Ha in H.
  apply expand_items_returns in H. rewrite Forall_forall in H.
  apply list_elem_of_fmap in Hb as (req & -> & Hreq).
  destruct (H req Hreq) as (q & m' & a' & t' & a'' & _ & Hv).
  by exists m', a', t', a''.
Qed.

Lemma returns_rtc depth a b :
  rtc (requires cookbook) a b → returns depth cookbook a →
  ∃ depth', (depth' <= depth)%nat ∧ returns depth' cookbook b.
Proof.
  intros Hab. revert depth.
  induction Hab as [a|a c b Hac _ IH]; intros depth Hret.
  - by exists depth.
  - destruct (returns_requires _ _ _ Hret Hac) as (d & -> & Hd).
    destruct (IH d Hd) as (d' & Hle & Hd'). exists d'. split; [lia|done].
Qed.

Lemma returns_tc depth a b :
  tc (requires cookbook) a b → returns depth cookbook a →
  ∃ depth', (depth' < depth)%nat ∧ returns depth' cookbook b.
Proof.
  intros Hab Hret.
  destruct Hab as [a b Hab|a c b Hac Hcb].
  - destruct (returns_requires _ _ _ Hret Hab) as (d & -> & Hd).
    exists d. split; [lia|done].
  - destruct (returns_requires _ _ _ Hret Hac) as (d & -> & Hd).
    destruct (returns_rtc d c b (tc_rtc _ _ Hcb) Hd) as (d' & Hle & Hd').
    exists d'. split; [lia|done].
Qed.

(** A recipe on a cycle never expands, whatever depth is allowed. *)
Lemma cyclic_never_returns depth r :
  tc (requires cookbook) r r → ¬ returns depth cookbook r.
Proof.
  intros Hcyc. induction (lt_wf depth) as [depth _ IH]. intros Hret.
  destruct (returns_tc depth r r Hcyc Hret) as (d' & Hlt & Hd').
  exact (IH d' Hlt Hd').
Qed.

(** A normal return means that every name reached is in the store. *)
Lemma returns_no_missing_reference depth root :
  returns depth cookbook root → ¬ missing_reference cookbook root.
Proof.
  intros Hret (a & b & Hra & Hab & Hb).
  destruct (returns_rtc depth root a Hra Hret) as (d & _ & Hd).
  destruct (returns_requires _ _ _ Hd Hab) as (d' & _ & Hd').
  apply returns_present in Hd'. rewrite Hb in Hd'.
  by destruct Hd' as [(? & ? & ?)|(? & ? & ?)].
Qed.

Lemma expand_items_raises visit required_items multiplier total acc e acc' :
  expand_items visit required_items multiplier total acc = (Raise e, acc') →
  ∃ req, req ∈ required_items ∧
    (quantity req = PyNotInt ∧ e = ValueError "bad quantity" ∨
     ∃ q m a a', quantity req = PyInt q ∧
                 visit (name req) m a = (Raise e, a')).
Proof.
  revert total acc.
  induction required_items as [|req rest IH]; intros total acc; simpl; [done|].
  destruct (quantity req) as [q|] eqn:Hq.
  - destruct (visit (name req) (multiplier * q) acc) as [[t1|e1] acc1] eqn:Hv.
    + intros (req' & Hin & H)%IH. exists req'. split; [by right|done].
    + intros [= -> ->]. exists req. split; [by left|]. right.
      by exists q, (multiplier * q), acc, acc'.
  - intros [= <- <-]. exists req. split; [by left|]. by left.
Qed.

Lemma raise_cause_step a b e :
  requires cookbook a b → raise_cause cookbook b e → raise_cause cookbook a e.
Proof.
  intros Hab. destruct e as [msg|msg|]; simpl; [| |done].
  - intros [Hb|(c & d & Hbc & Hcd & Hd)]; right.
    + by exists a, b.
    + exists c, d. split_and!; [|done..]. by eapply rtc_l.
  - intros (c & Hbc & Hc). exists c. split; [by eapply rtc_l|done].
Qed.

Lemma expand_raise_cause depth root multiplier acc e acc' :
  _expand_to_ingredients depth cookbook root multiplier acc = (Raise e, acc') →
  raise_cause cookbook root e.
Proof.
  revert root multiplier acc acc'.
  induction depth as [|depth IH]; intros root multiplier acc acc'; simpl.
  - by intros [= <- _].
  - destruct (cookbook !! root) as [[n ct|n items|]|] eqn:Hroot.
    + done.
    + intros (req & Hin & [[Hq ->]|(q & m & a & a' & Hq & Hv)])%expand_items_raises.
      * exists root. split; [done|]. right. by exists n, items, req.
      * apply IH in Hv. eapply raise_cause_step; [|exact Hv].
        exists n, items. split; [done|]. apply list_elem_of_fmap. by exists req.
    + intros [= <- _]. exists root. split; [done|]. by left.
    + intros [= <- _]. by left.
Qed.

Lemma well_formed_not_ill_typed key :
  well_formed cookbook → ¬ ill_typed cookbook key.
Proof.
  intros Hwf [Hother|(n & items & req & Hkey & Hin & Hq)].
  - by destruct (Hwf _ _ Hother) as [(? & ? & _)|(? & ? & _)].
  - destruct (Hwf _ _ Hkey) as [(? & ? & _)|(items' & [= _ <-] & Hall & _)];
      [done|].
    rewrite Forall_forall in Hall. destruct (Hall req Hin) as [q Hq'].
    congruence.
Qed.

Lemma total_of_app m ps1 ps2 :
  total_of m (ps1 ++ ps2) = total_of m ps1 + total_of m ps2.
Proof.
  unfold total_of. induction ps1 as [|[[qs n] ct] ps1 IH]; simpl; [done|].
  rewrite IH. lia.
Qed.

Lemma acc_of_app m ps1 ps2 acc :
  acc_of m (ps1 ++ ps2) acc = acc_of m ps2 (acc_of m ps1 acc).
Proof. unfold acc_of. apply fold_left_app. Qed.

Lemma total_of_edge m q ps :
  total_of m (map (λ '(qs, n, cook_time), (q :: qs, n, cook_time)) ps)
  = total_of (m * q) ps.
Proof.
  unfold total_of. induction ps as [|[[qs n] ct] ps IH]; simpl; [done|].
  rewrite IH. f_equal. lia.
Qed.

Lemma acc_of_edge m q ps acc :
  acc_of m (map (λ '(qs, n, cook_time), (q :: qs, n, cook_time)) ps) acc
  = acc_of (m * q) ps acc.
Proof.
  unfold acc_of. revert acc.
  induction ps as [|[[qs n] ct] ps IH]; intros acc; simpl; [done|].
  rewrite IH. do 2 f_equal. lia.
Qed.

(** The multiplier handed down an edge is the multiplier of the parent
    times the edge's quantity; seen from the root it is the product
    along the path. *)
Lemma expand_path_products depth root multiplier acc total acc' :
  _expand_to_ingredients depth cookbook root multiplier acc
  = (Return total, acc') →
  total = total_of multiplier (leaf_paths depth cookbook root) ∧
  acc' = acc_of multiplier (leaf_paths depth cookbook root) acc.
Proof.
  revert root multiplier acc total acc'.
  induction depth as [|depth IH]; intros root m acc total acc'; simpl; [done|].
  destruct (cookbook !! root) as [[n ct|n items|]|]; try done.
  - intros [= <- <-]. unfold total_of, acc_of, acc_add. simpl.
    rewrite Z.mul_1_r. split; [lia|done].
  - assert (∀ t0 acc0,
      expand_items (_expand_to_ingredients depth cookbook) items m t0 acc0
      = (Return total, acc') →
      total = t0 + total_of m (flat_map
                (λ req, match quantity req with
                        | PyInt q =>
                            map (λ '(qs, n, cook_time), (q :: qs, n, cook_time))
                              (leaf_paths depth cookbook (name req))
                        | PyNotInt => []
                        end) items) ∧
      acc' = acc_of m (flat_map
                (λ req, match quantity req with
                        | PyInt q =>
                            map (λ '(qs, n, cook_time), (q :: qs, n, cook_time))
                              (leaf_paths depth cookbook (name req))
                        | PyNotInt => []
                        end) items) acc0) as Hloop.
    { induction items as [|req rest IHitems]; intros t0 acc0; simpl.
      - intros [= <- <-]. split; [unfold total_of; simpl; lia|done].
      - destruct (quantity req) as [q|]; [|done].
        destruct (_expand_to_ingredients depth cookbook (name req) (m * q) acc0)
          as [[t1|e] acc1] eqn:Hv; [|done].
        apply IH in Hv as [-> ->].
        intros [-> ->]%IHitems.
        rewrite total_of_app, acc_of_app, total_of_edge, acc_of_edge.
        split; [lia|done]. }
    intros [-> ->]%Hloop. split; [lia|done].
Qed.

End expander_facts.

(** ** jsonify *)

Lemma int_repr_ok_small z : Z.abs z < 10 ^ 18 → int_repr_ok z = true.
Proof.
  intros Hz. unfold int_repr_ok. apply Z.ltb_lt.
  eapply Z.lt_trans; [exact Hz|].
  apply Z.pow_lt_mono_r; unfold max_str_digits; lia.
Qed.

Lemma serialisable_summary_body n total (acc : Acc) :
  serialisable (summary_body n total acc)
  = int_repr_ok total && forallb (λ kv, int_repr_ok kv.2) acc.
Proof.
  unfold summary_body. cbn [serialisable forallb snd andb].
  rewrite andb_true_r. f_equal.
  induction acc as [|[k v] acc IH]; [done|].
  change (ingredients_list ((k, v) :: acc))
    with (JDict [(py "name", JStr k); (py "quantity", JInt v)]
            :: ingredients_list acc).
  cbn [forallb serialisable snd andb]. by rewrite andb_true_r, IH.
Qed.

Lemma jsonify_summary_body n total (acc : Acc) :
  int_repr_ok total = true → Forall (λ kv, int_repr_ok kv.2 = true) acc →
  jsonify (summary_body n total acc) = Return (summary_body n total acc).
Proof.
  intros Ht Hacc. unfold jsonify.
  rewrite serialisable_summary_body, Ht. cbn [andb].
  by rewrite (proj2 (forallb_forall _ _)) by (intros kv Hkv;
    by apply (proj1 (Forall_forall _ _) Hacc), list_elem_of_In).
Qed.

Lemma int_repr_ok_false z :
  int_repr_ok z = false ↔ 10 ^ max_str_digits <= Z.abs z.
Proof. unfold int_repr_ok. apply Z.ltb_ge. Qed.

Lemma serialisable_summary_body_false n total (acc : Acc) :
  serialisable (summary_body n total acc) = false ↔
  10 ^ max_str_digits <= Z.abs total ∨
  ∃ ing_name qty, (ing_name, qty) ∈ acc ∧ 10 ^ max_str_digits <= Z.abs qty.
Proof.
  rewrite serialisable_summary_body, andb_false_iff, int_repr_ok_false.
  apply or_iff_compat_l. split.
  - intros Hacc. induction acc as [|[k v] acc IH]; [done|].
    cbn [forallb snd] in Hacc. apply andb_false_iff in Hacc as [Hv|Hacc].
    + exists k, v. split; [apply list_elem_of_here|by apply int_repr_ok_false].
    + destruct (IH Hacc) as (k' & v' & Hin & Hv').
      exists k', v'. split; [by apply list_elem_of_further|done].
  - intros (k & v & Hin & Hv). apply not_true_is_false. intros Hall.
    rewrite forallb_forall in Hall. apply list_elem_of_In, Hall in Hin.
    apply int_repr_ok_false in Hv. simpl in Hin. congruence.
Qed.

(** What [summary] answers once the name has passed its checks. *)
Lemma summary_of_recipe (depth : nat) (n k : pystr)
    (required_items : list RequiredItem) (cookbook : Cookbook) :
  strip n ≠ [] → cookbook !! n = Some (Recipe k required_items) →
  summary depth (Some n) cookbook =
  match _expand_to_ingredients depth cookbook n 1 [] with
  | (Return total_time, acc) =>
      match jsonify (summary_body n total_time acc) with
      | Return body => (Status200 body, cookbook)
      | Raise _ => (Status400, cookbook)
      end
  | (Raise _, _) => (Status400, cookbook)
  end.
Proof.
  intros Hblank Hn. unfold summary.
  destruct n as [|c n]; [done|].
  destruct (strip (c :: n)) as [|c' s'] eqn:Hs; [done|].
  cbn [length Nat.eqb orb]. by rewrite Hn.
Qed.

(** ** Stores built by entry creation *)

Lemma reachable_well_formed cookbook : reachable cookbook → well_formed cookbook.
Proof.
  induction 1 as [|data cookbook _ IH].
  - intros key e Hkey. by rewrite lookup_empty in Hkey.
  - destruct (create_entry_cases data cookbook)
      as [->|(key & e & _ & _ & He & ->)]; [done|].
    intros key' e' Hkey'. simpl in Hkey'.
    apply lookup_insert_Some in Hkey' as [[<- <-]|[_ Hkey']]; [done|].
    by apply IH.
Qed.

Lemma strip_nil_of_nil (s : pystr) : s = [] → strip s = [].
Proof. by intros ->. Qed.

Lemma acc_get_set_eq (acc : Acc) key value default :
  acc_get (acc_set acc key value) key default = value.
Proof.
  induction acc as [|[k v] acc IH]; simpl;
    repeat (case_bool_decide; simpl); by simplify_eq.
Qed.

Lemma acc_get_set_ne (acc : Acc) key key' value default :
  key ≠ key' →
  acc_get (acc_set acc key value) key' default = acc_get acc key' default.
Proof.
  intros Hne. induction acc as [|[k v] acc IH]; simpl;
    repeat (case_bool_decide; simpl); by simplify_eq.
Qed.

Lemma acc_set_keys (acc : Acc) key value :
  (acc_set acc key value).*1
  = if bool_decide (key ∈ acc.*1) then acc.*1 else acc.*1 ++ [key].
Proof.
  induction acc as [|[k v] acc IH]; [done|]. cbn [acc_set].
  destruct (decide (k = key)) as [->|Hk].
  - rewrite (bool_decide_eq_true_2 (key = key)) by done. rewrite !fmap_cons.
    cbn [fst]. rewrite bool_decide_eq_true_2; [done|apply list_elem_of_here].
  - rewrite (bool_decide_eq_false_2 (k = key)) by done. rewrite !fmap_cons, IH.
    cbn [fst]. destruct (decide (key ∈ acc.*1)) as [Hin|Hin].
    + rewrite !bool_decide_eq_true_2; [done|by apply list_elem_of_further|done].
    + rewrite !bool_decide_eq_false_2; [done| |done].
      intros [->|?]%elem_of_cons; done.
Qed.

Lemma acc_set_grows (acc : Acc) key value :
  acc.*1 `prefix_of` (acc_set acc key value).*1 ∧
  (NoDup acc.*1 → NoDup (acc_set acc key value).*1).
Proof.
  rewrite acc_set_keys. case_bool_decide as Hin; [done|]. split.
  - by apply prefix_app_r.
  - intros Hnd. apply NoDup_app. split_and!; [done| |apply NoDup_singleton].
    intros x Hx ->%list_elem_of_singleton. done.
Qed.

(** *** The code against the specification's visit *)

Lemma acc_get_list_to_map (acc : Acc) key d :
  acc_get acc key d = default d ((list_to_map acc : gmap pystr Z) !! key).
Proof.
  induction acc as [|[k v] acc IH]; [done|].
  cbn [acc_get list_to_map foldr]. change (foldr _ _ acc) with (list_to_map acc : gmap pystr Z).
  destruct (decide (k = key)) as [->|Hk].
  - rewrite bool_decide_eq_true_2 by done. by rewrite lookup_insert_eq.
  - rewrite bool_decide_eq_false_2 by done. by rewrite lookup_insert_ne.
Qed.

Lemma acc_set_list_to_map (acc : Acc) key value :
  (list_to_map (acc_set acc key value) : gmap pystr Z)
  = <[key := value]> (list_to_map acc).
Proof.
  induction acc as [|[k v] acc IH]; [done|]. cbn [acc_set].
  destruct (decide (k = key)) as [->|Hk].
  - rewrite bool_decide_eq_true_2 by done.
    cbn [list_to_map foldr]. by rewrite insert_insert_eq.
  - rewrite bool_decide_eq_false_2 by done.
    cbn [list_to_map foldr].
    change (foldr _ _ (acc_set acc key value))
      with (list_to_map (acc_set acc key value) : gmap pystr Z).
    change (foldr _ _ acc) with (list_to_map acc : gmap pystr Z).
    rewrite IH. by apply insert_insert_ne.
Qed.

Lemma spec_leaf_visit_state_of k ct m T (acc : Acc) :
  spec_leaf k ct m (visit_state_of T acc)
  = visit_state_of (T + ct * m) (acc_set acc k (acc_get acc k 0 + m)).
Proof.
  unfold spec_leaf, visit_state_of. cbn [running_total accumulator first_seen].
  by rewrite acc_set_list_to_map, acc_set_keys, acc_get_list_to_map.
Qed.

Lemma expand_items_spec (cookbook : Cookbook) visit required_items m t0 acc t acc' :
  (∀ n m acc t acc' T, visit n m acc = (Return t, acc') →
     spec_visit cookbook n m (visit_state_of T acc) (visit_state_of (T + t) acc')) →
  expand_items visit required_items m t0 acc = (Return t, acc') →
  ∀ T, spec_visit_each cookbook required_items m
         (visit_state_of (T + t0) acc) (visit_state_of (T + t) acc').
Proof.
  intros Hvisit. revert t0 acc.
  induction required_items as [|req rest IH]; intros t0 acc; simpl.
  - intros [= <- <-] T. constructor.
  - destruct (quantity req) as [q|] eqn:Hq; [|done].
    destruct (visit (name req) (m * q) acc) as [[t1|e1] acc1] eqn:Hv; [|done].
    intros Hrest T. econstructor; [done|by apply Hvisit|].
    rewrite <-Z.add_assoc. by apply IH.
Qed.

(** Whatever the code returns, the specification's visit yields. *)
Lemma expand_sound (depth : nat) (cookbook : Cookbook) n m acc t acc' T :
  _expand_to_ingredients depth cookbook n m acc = (Return t, acc') →
  spec_visit cookbook n m (visit_state_of T acc) (visit_state_of (T + t) acc').
Proof.
  revert n m acc t acc' T.
  induction depth as [|depth IH]; intros n m acc t acc' T; simpl; [done|].
  destruct (cookbook !! n) as [[k ct|k items|]|] eqn:Hn; try done.
  - intros [= <- <-]. rewrite <-spec_leaf_visit_state_of. by constructor.
  - intros Hitems. econstructor; [done|].
    pose proof (expand_items_spec cookbook _ items m 0 acc t acc' IH Hitems T) as H.
    by rewrite Z.add_0_r in H.
Qed.

(** Whatever the specification's visit yields, the code returns, at
    every depth from some depth on. *)
Lemma expand_complete (cookbook : Cookbook) n m σ σ' :
  spec_visit cookbook n m σ σ' →
  ∀ T acc, σ = visit_state_of T acc →
  ∃ depth0 t acc',
    σ' = visit_state_of (T + t) acc' ∧
    ∀ depth, (depth0 <= depth)%nat →
      _expand_to_ingredients depth cookbook n m acc = (Return t, acc').
Proof.
  intros Hvisit.
  induction Hvisit using spec_visit_mut with
    (P0 := λ items m σ σ' _,
       ∀ T acc, σ = visit_state_of T acc →
       ∃ depth0 t acc',
         σ' = visit_state_of (T + t) acc' ∧
         ∀ depth t0, (depth0 <= depth)%nat →
           expand_items (_expand_to_ingredients depth cookbook) items m t0 acc
           = (Return (t0 + t), acc')).
  - intros T acc ->.
    exists 1%nat, (cookTime * multiplier),
      (acc_set acc k (acc_get acc k 0 + multiplier)).
    split; [apply spec_leaf_visit_state_of|].
    intros depth Hd. destruct depth as [|depth]; [lia|]. simpl. by rewrite e.
  - intros T acc Hσ. destruct (IHHvisit T acc Hσ) as (d0 & t & acc' & -> & Hrun).
    exists (S d0), t, acc'. split; [done|].
    intros depth Hd. destruct depth as [|depth]; [lia|]. simpl. rewrite e.
    rewrite (Hrun depth 0) by lia. by rewrite Z.add_0_l.
  - intros T acc ->. exists 0%nat, 0, acc. split; [by rewrite Z.add_0_r|].
    intros depth t0 _. simpl. by rewrite Z.add_0_r.
  - intros T acc Hσ.
    destruct (IHHvisit T acc Hσ) as (d1 & t1 & acc1 & Hσ1 & Hrun1).
    destruct (IHHvisit0 (T + t1) acc1 Hσ1) as (d2 & t2 & acc2 & -> & Hrun2).
    exists (d1 `max` d2)%nat, (t1 + t2), acc2.
    split; [by rewrite Z.add_assoc|].
    intros depth t0 Hd. simpl. rewrite e.
    rewrite (Hrun1 depth) by lia. rewrite (Hrun2 depth (t0 + t1)) by lia.
    by rewrite Z.add_assoc.
Qed.

Lemma total_of_linear m ps : total_of m ps = m * total_of 1 ps.
Proof.
  unfold total_of. induction ps as [|[[qs n] ct] ps IH]; simpl; [lia|].
  rewrite IH. lia.
Qed.

(** C2: expansion is linear-multiplicative. In any store that holds a
    recipe R requiring 2 of S, a recipe S requiring 3 of I and an
    ingredient I with cook time 5, expanding R (three levels of depth
    suffice) gives the ingredient map {I: 6} and the total 30, which is
    also what [summary] answers. In general the code computes exactly
    the visit of the specification, in which a recipe hands each
    sub-item its own multiplier times the sub-item's quantity and an
    ingredient adds its multiplier to its accumulator entry and cook
    time times multiplier to the running total: what the code returns
    the visit yields, and what the visit yields the code returns at
    every recursion limit from some limit on. So an ingredient leaf
    returns cook time times multiplier, and the total is the sum over
    the leaves reached of cook time times the product of the quantities
    on the path, linear in the root multiplier. *)
Theorem expansion_linear_multiplicative (cookbook : Cookbook) :
  (∀ depth R S I,
     cookbook !! R = Some (Recipe R [mkRequiredItem S (PyInt 2)]) →
     cookbook !! S = Some (Recipe S [mkRequiredItem I (PyInt 3)]) →
     cookbook !! I = Some (Ingredient I 5) →
     (3 <= depth)%nat →
     _expand_to_ingredients depth cookbook R 1 [] = (Return 30, [(I, 6)]) ∧
     (strip R ≠ [] →
      (summary depth (Some R) cookbook).1 =
      Status200 (JDict [(py "name", JStr R); (py "cookTime", JInt 30);
                        (py "ingredients",
                         JList [JDict [(py "name", JStr I);
                                       (py "quantity", JInt 6)]])]))) ∧
  (∀ depth entry_name k cook_time multiplier acc,
     cookbook !! entry_name = Some (Ingredient k cook_time) →
     _expand_to_ingredients (S depth) cookbook entry_name multiplier acc
     = (Return (cook_time * multiplier),
        acc_set acc k (acc_get acc k 0 + multiplier))) ∧
  (∀ depth root multiplier acc total acc',
     _expand_to_ingredients depth cookbook root multiplier acc
     = (Return total, acc') →
     total = total_of multiplier (leaf_paths depth cookbook root) ∧
     total = multiplier * total_of 1 (leaf_paths depth cookbook root) ∧
     acc' = acc_of multiplier (leaf_paths depth cookbook root) acc) ∧
  (∀ depth root multiplier acc total acc' T,
     _expand_to_ingredients depth cookbook root multiplier acc
     = (Return total, acc') →
     spec_visit cookbook root multiplier
       (visit_state_of T acc) (visit_state_of (T + total) acc')) ∧
  (∀ root multiplier acc T σ',
     spec_visit cookbook root multiplier (visit_state_of T acc) σ' →
     ∃ depth0 total acc',
       σ' = visit_state_of (T + total) acc' ∧
       ∀ depth, (depth0 <= depth)%nat →
         _expand_to_ingredients depth cookbook root multiplier acc
         = (Return total, acc')).
Proof.
  split_and!.
  - intros depth R S I HR HS HI Hdepth.
    assert (_expand_to_ingredients depth cookbook R 1 [] = (Return 30, [(I, 6)]))
      as Hexpand.
    { destruct depth as [|[|[|d]]]; [lia..|].
      cbn [_expand_to_ingredients]. rewrite HR.
      cbn [expand_items quantity name _expand_to_ingredients]. rewrite HS.
      cbn [expand_items quantity name _expand_to_ingredients]. rewrite HI.
      reflexivity. }
    split; [done|]. intros Hname.
    rewrite (summary_of_recipe _ _ _ _ _ Hname HR), Hexpand.
    rewrite jsonify_summary_body; [done|by apply int_repr_ok_small|].
    constructor; [by apply int_repr_ok_small|constructor].
  - intros depth entry_name k cook_time multiplier acc Hleaf.
    simpl. by rewrite Hleaf.
  - intros depth root multiplier acc total acc' Hret.
    apply expand_path_products in Hret as [Htotal Hacc].
    split_and!; [done| |done]. by rewrite <-total_of_linear.
  - intros depth root multiplier acc total acc' T. apply expand_sound.
  - intros root multiplier acc T σ' Hvisit. by eapply expand_complete.
Qed.

Lemma expansion_linear_multiplicative_witness :
  let cookbook : Cookbook :=
    <[py "R" := Recipe (py "R") [mkRequiredItem (py "S") (PyInt 2)]]>
      (<[py "S" := Recipe (py "S") [mkRequiredItem (py "I") (PyInt 3)]]>
         (<[py "I" := Ingredient (py "I") 5]> ∅)) in
  _expand_to_ingredients 3 cookbook (py "R") 1 [] = (Return 30, [(py "I", 6)]) ∧
  30 = total_of 1 (leaf_paths 3 cookbook (py "R")) ∧
  _expand_to_ingredients 1 cookbook (py "I") 6 [] = (Return 30, [(py "I", 6)]) ∧
  spec_visit cookbook (py "R") 1
    (visit_state_of 0 []) (visit_state_of (0 + 30) [(py "I", 6)]) ∧
  ∃ depth0 total acc',
    visit_state_of (0 + 30) [(py "I", 6)] = visit_state_of (0 + total) acc' ∧
    ∀ depth, (depth0 <= depth)%nat →
      _expand_to_ingredients depth cookbook (py "R") 1 [] = (Return total, acc').
Proof.
  intros cookbook.
  destruct (expansion_linear_multiplicative cookbook)
    as (Hex & Hleaf & Hgen & Hsound & Hcomplete).
  destruct (Hex 3%nat (py "R") (py "S") (py "I")) as [Hexpand _];
    [reflexivity..|lia|].
  split_and!; [exact Hexpand| | | |].
  - exact (proj1 (Hgen _ _ _ _ _ _ Hexpand)).
  - exact (Hleaf 0%nat (py "I") (py "I") 5 6 [] eq_refl).
  - exact (Hsound _ _ _ _ _ _ 0 Hexpand).
  - exact (Hcomplete _ _ _ _ _ (Hsound _ _ _ _ _ _ 0 Hexpand)).
Defined.

(** The visit of the specification on a recipe with two routes to the
    same ingredient, R = [2 x A, 3 x I] with A = [5 x I]: the code
    returns what the visit yields, the quantities of the two routes
    added up. *)
Lemma expansion_adds_routes :
  let cookbook : Cookbook :=
    <[py "R" := Recipe (py "R") [mkRequiredItem (py "A") (PyInt 2);
                                 mkRequiredItem (py "I") (PyInt 3)]]>
      (<[py "A" := Recipe (py "A") [mkRequiredItem (py "I") (PyInt 5)]]>
         (<[py "I" := Ingredient (py "I") 7]> ∅)) in
  _expand_to_ingredients 3 cookbook (py "R") 1 [] = (Return 91, [(py "I", 13)]).
Proof. vm_compute. reflexivity. Qed.

Lemma summary_keeps_store (depth : nat) (name : option pystr)
    (cookbook : Cookbook) :
  (summary depth name cookbook).2 = cookbook.
Proof. unfold summary. by repeat case_match. Qed.

Lemma expand_items_in_agrees (cookbook : Cookbook) visit_in visit
    required_items m t (w : World) :
  (∀ n m w, world_cookbook w = cookbook →
     visit_in n m w
     = ((visit n m (world_acc w)).1,
        mkWorld cookbook (visit n m (world_acc w)).2)) →
  world_cookbook w = cookbook →
  expand_items_in visit_in required_items m t w
  = ((expand_items visit required_items m t (world_acc w)).1,
     mkWorld cookbook (expand_items visit required_items m t (world_acc w)).2).
Proof.
  intros Hvisit. revert t w.
  induction required_items as [|req rest IH]; intros t w Hw; simpl.
  - destruct w as [cb acc]. simpl in *. by subst.
  - destruct (quantity req) as [q|].
    + rewrite Hvisit by done.
      destruct (visit (name req) (m * q) (world_acc w)) as [[t1|e1] acc1]; simpl.
      * by rewrite IH.
      * done.
    + destruct w as [cb acc]. simpl in *. by subst.
Qed.

(** Handing the store on changes nothing in what the expander computes,
    and the store comes back as it went in. *)
Lemma expand_in_agrees (depth : nat) n m (w : World) :
  _expand_to_ingredients_in depth n m w
  = ((_expand_to_ingredients depth (world_cookbook w) n m (world_acc w)).1,
     mkWorld (world_cookbook w)
       (_expand_to_ingredients depth (world_cookbook w) n m (world_acc w)).2).
Proof.
  revert n m w. induction depth as [|depth IH]; intros n m w.
  - by destruct w.
  - simpl. destruct (world_cookbook w !! n) as [[k ct|k items|]|] eqn:Hn;
      try by destruct w.
    apply expand_items_in_agrees; [|done].
    intros n' m' w' Hw'. rewrite IH. by rewrite Hw'.
Qed.

Lemma summary_in_agrees (depth : nat) (name : option pystr)
    (cookbook : Cookbook) :
  summary_in depth name cookbook = summary depth name cookbook.
Proof.
  unfold summary_in, summary. destruct name as [n|]; [|done].
  destruct (_ || _); [done|].
  destruct (cookbook !! n) as [[k ct|k items|]|]; try done.
  rewrite expand_in_agrees. cbn [world_cookbook world_acc].
  destruct (_expand_to_ingredients depth cookbook n 1 []) as [[t|e] acc];
    cbn [fst snd world_cookbook world_acc]; [|done].
  by destruct (jsonify _).
Qed.

(** C8: expansion is a pure read and repeats. The expander, given the
    whole interpreter state, hands the store back as it received it,
    whether it returns or raises; so [summary] leaves the store it found,
    and asking again on that store gives the same reply: the same total
    cook time and the same ingredient list in the same order, or the
    same rejection. *)
Theorem summary_pure_and_idempotent (depth : nat) (name : option pystr)
    (cookbook : Cookbook) :
  (∀ entry_name multiplier w r w',
     _expand_to_ingredients_in depth entry_name multiplier w = (r, w') →
     world_cookbook w' = world_cookbook w) ∧
  (summary_in depth name cookbook).2 = cookbook ∧
  summary_in depth name (summary_in depth name cookbook).2
  = summary_in depth name cookbook ∧
  summary_in depth name cookbook = summary depth name cookbook ∧
  (summary depth name cookbook).2 = cookbook ∧
  summary depth name (summary depth name cookbook).2
  = summary depth name cookbook ∧
  (handle depth (GET_summary name) cookbook).2 = cookbook.
Proof.
  pose proof (summary_keeps_store depth name cookbook) as Hsame.
  pose proof (summary_in_agrees depth name cookbook) as Hin.
  split_and!.
  - intros entry_name multiplier w r w'. rewrite expand_in_agrees.
    by intros [= _ <-].
  - by rewrite Hin.
  - rewrite Hin, Hsame. apply summary_in_agrees.
  - done.
  - done.
  - by rewrite Hsame.
  - unfold handle. by destruct (summary depth name cookbook) as [r cookbook'].
Qed.

Lemma summary_pure_and_idempotent_witness :
  let cookbook : Cookbook :=
    <[py "R" := Recipe (py "R") [mkRequiredItem (py "I") (PyInt 2)]]>
      (<[py "I" := Ingredient (py "I") 5]> ∅) in
  world_cookbook
    (_expand_to_ingredients_in 2 (py "R") 1 (mkWorld cookbook [])).2
  = cookbook.
Proof.
  intros cookbook.
  destruct (_expand_to_ingredients_in 2 (py "R") 1 (mkWorld cookbook []))
    as [r w'] eqn:E.
  exact (proj1 (summary_pure_and_idempotent 2 None cookbook) _ _ _ _ _ E).
Defined.

(** C9: in every store built only through entry creation each value is
    an Ingredient or a Recipe (stored under its own name), so the
    expander never takes its fallback branch: it never raises
    [ValueError "unknown entry type"] (nor the other [ValueError], for a
    quantity that is not an int). *)
Theorem unknown_entry_type_unreachable (cookbook : Cookbook) :
  reachable cookbook →
  (∀ key e, cookbook !! key = Some e →
     (∃ cook_time, e = Ingredient key cook_time) ∨
     (∃ required_items, e = Recipe key required_items)) ∧
  (∀ depth entry_name multiplier acc acc',
     _expand_to_ingredients depth cookbook entry_name multiplier acc
     ≠ (Raise (ValueError "unknown entry type"), acc')) ∧
  (∀ depth entry_name multiplier acc acc' msg,
     _expand_to_ingredients depth cookbook entry_name multiplier acc
     ≠ (Raise (ValueError msg), acc')).
Proof.
  intros Hwf%reachable_well_formed.
  assert (∀ depth entry_name multiplier acc acc' msg,
     _expand_to_ingredients depth cookbook entry_name multiplier acc
     ≠ (Raise (ValueError msg), acc')) as Hnever; [|split_and!; [|by auto|done]].
  - intros depth entry_name multiplier acc acc' msg Hraise.
    apply expand_raise_cause in Hraise as (b & _ & Hb).
    by eapply well_formed_not_ill_typed.
  - intros key e Hkey.
    destruct (Hwf key e Hkey) as [(ct & -> & _)|(items & -> & _)]; eauto.
Qed.

Lemma unknown_entry_type_unreachable_witness :
  let egg := JDict [(py "type", JStr (py "ingredient"));
                    (py "name", JStr (py "Egg")); (py "cookTime", JInt 3)] in
  _expand_to_ingredients 5 (create_entry egg ∅).2 (py "Egg") 1 []
  ≠ (Raise (ValueError "unknown entry type"), []).
Proof.
  intros egg.
  refine (proj1 (proj2 (unknown_entry_type_unreachable (create_entry egg ∅).2 _))
            5%nat (py "Egg") 1 [] []).
  apply reachable_create, reachable_empty.
Defined.

(** ** Cycles and failures *)

Lemma summary_status400_iff depth n cookbook :
  (summary depth (Some n) cookbook).1 = Status400 ↔
  n = [] ∨ strip n = [] ∨
  (∀ k required_items, cookbook !! n ≠ Some (Recipe k required_items)) ∨
  (∃ e acc', _expand_to_ingredients depth cookbook n 1 [] = (Raise e, acc')) ∨
  (∃ total acc,
     _expand_to_ingredients depth cookbook n 1 [] = (Return total, acc) ∧
     serialisable (summary_body n total acc) = false).
Proof.
  destruct (decide (strip n = [])) as [Hs|Hs].
  { split; [by right; left|]. intros _. unfold summary.
    rewrite Hs. cbn [length Nat.eqb]. by rewrite orb_true_r. }
  assert (n ≠ []) as Hn by (by intros ->).
  destruct (cookbook !! n) as [e|] eqn:Hlook.
  2:{ split; [intros _; right; right; left; by intros k items|].
      intros _. unfold summary. rewrite Hlook. by repeat case_match. }
  destruct e as [k ct|k items|].
  1,3: (split; [intros _; right; right; left; by intros k' items'|];
        intros _; unfold summary; rewrite Hlook; by repeat case_match).
  rewrite (summary_of_recipe depth n k items cookbook Hs Hlook).
  destruct (_expand_to_ingredients depth cookbook n 1 []) as [[t|e] acc'].
  - unfold jsonify.
    destruct (serialisable (summary_body n t acc')) eqn:Hser; cbn [fst].
    + split; [done|].
      intros [?|[?|[Hno|[(e & a & [=])|(t' & a' & Heq & Hf)]]]];
        [done..|by destruct (Hno k items)|].
      injection Heq as <- <-. by rewrite Hser in Hf.
    + split; [|done]. intros _. right; right; right; right. by exists t, acc'.
  - cbn [fst]. split; [|done]. intros _. right; right; right; left.
    by eexists _, _.
Qed.

(** C1 as stated fails: a store built by entry creation in which a
    recipe requires itself and, before that, a name that was never
    created. The expansion ends on the missing name with [KeyError], at
    the second call, not on the depth of the recursion. *)
Lemma cyclic_expansion_key_error :
  let cookbook :=
    (create_entry
       (JDict [(py "type", JStr (py "recipe")); (py "name", JStr (py "Loop"));
               (py "requiredItems",
                JList [JDict [(py "name", JStr (py "Ghost")); (py "quantity", JInt 1)];
                       JDict [(py "name", JStr (py "Loop")); (py "quantity", JInt 1)]])])
       ∅).2 in
  tc (requires cookbook) (py "Loop") (py "Loop") ∧
  _expand_to_ingredients 1000 cookbook (py "Loop") 1 []
  = (Raise (KeyError "missing entry"), []).
Proof.
  split; [|vm_compute; reflexivity].
  apply tc_once.
  exists (py "Loop"),
    [mkRequiredItem (py "Ghost") (PyInt 1); mkRequiredItem (py "Loop") (PyInt 1)].
  split; [reflexivity|]. simpl. apply list_elem_of_further, list_elem_of_here.
Qed.

(** C1, amended: the code has no guard and no error kind of its own for
    cycles; it leans on the interpreter's recursion limit. For every
    store in which a recipe directly or transitively requires itself,
    expanding that recipe never returns a result: under any recursion
    limit the expander raises, and [summary] answers 400 and leaves the
    store alone. The exception is [RecursionError] when the store is
    well formed and no name reached from the recipe is missing;
    otherwise a missing name met first ends the expansion. *)
Theorem cyclic_expansion_fails (depth : nat) (cookbook : Cookbook) (r : pystr) :
  tc (requires cookbook) r r →
  (∀ multiplier acc, ∃ e acc',
     _expand_to_ingredients depth cookbook r multiplier acc = (Raise e, acc')) ∧
  summary depth (Some r) cookbook = (Status400, cookbook) ∧
  (well_formed cookbook → ¬ missing_reference cookbook r →
   ∀ multiplier acc, ∃ acc',
     _expand_to_ingredients depth cookbook r multiplier acc
     = (Raise RecursionError, acc')).
Proof.
  intros Hcyc.
  assert (∀ multiplier acc, ∃ e acc',
     _expand_to_ingredients depth cookbook r multiplier acc = (Raise e, acc'))
    as Hraise.
  { intros m acc.
    destruct (_expand_to_ingredients depth cookbook r m acc) as [[t|e] acc'] eqn:E.
    - destruct (cyclic_never_returns cookbook depth r Hcyc).
      by exists m, acc, t, acc'.
    - by exists e, acc'. }
  split_and!; [done| |].
  - destruct (summary depth (Some r) cookbook) as [resp cookbook'] eqn:E.
    pose proof (summary_keeps_store depth (Some r) cookbook) as Hst.
    rewrite E in Hst. simpl in Hst. subst cookbook'. f_equal.
    change resp with (resp, cookbook).1. rewrite <-E.
    apply summary_status400_iff. right; right; right; left. apply Hraise.
  - intros Hwf Hmiss m acc. destruct (Hraise m acc) as (e & acc' & He).
    exists acc'. rewrite He. do 2 f_equal.
    apply expand_raise_cause in He as Hcause.
    destruct e as [msg|msg|]; simpl in Hcause; [| |done].
    + destruct Hcause as [Hnone|Hm]; [|done].
      inversion Hcyc as [? ? (k & items & Hr & _)|? ? ? (k & items & Hr & _)];
        congruence.
    + destruct Hcause as (b & _ & Hb).
      by destruct (well_formed_not_ill_typed cookbook b Hwf).
Qed.

Lemma cyclic_expansion_fails_witness :
  let cookbook : Cookbook :=
    {[ py "Loop" := Recipe (py "Loop") [mkRequiredItem (py "Loop") (PyInt 1)] ]} in
  summary 50 (Some (py "Loop")) cookbook = (Status400, cookbook).
Proof.
  intros cookbook.
  refine (proj1 (proj2 (cyclic_expansion_fails 50 cookbook (py "Loop") _))).
  apply tc_once.
  exists (py "Loop"), [mkRequiredItem (py "Loop") (PyInt 1)].
  split; [reflexivity|]. simpl. apply list_elem_of_here.
Defined.

(** C3 as stated fails in one direction: expansion does not fail only
    when a precondition or a reference is violated. In this store, built
    by entry creation, the requested name is a recipe and every required
    item of every recipe is present, and still [summary] answers 400:
    the recipe requires itself and the recursion runs out of depth. *)
Lemma summary_fails_without_violation :
  let cookbook :=
    (create_entry
       (JDict [(py "type", JStr (py "recipe")); (py "name", JStr (py "Loop"));
               (py "requiredItems",
                JList [JDict [(py "name", JStr (py "Loop")); (py "quantity", JInt 1)]])])
       ∅).2 in
  cookbook !! py "Loop"
  = Some (Recipe (py "Loop") [mkRequiredItem (py "Loop") (PyInt 1)]) ∧
  (∀ a b, requires cookbook a b → is_Some (cookbook !! b)) ∧
  (summary 1000 (Some (py "Loop")) cookbook).1 = Status400.
Proof.
  intros cookbook.
  assert (cookbook =
          {[ py "Loop" := Recipe (py "Loop") [mkRequiredItem (py "Loop") (PyInt 1)] ]})
    as Hcb by reflexivity.
  split_and!; [reflexivity| |vm_compute; reflexivity].
  intros a b (k & items & Ha & Hb). rewrite Hcb in Ha |- *.
  apply lookup_singleton_Some in Ha as [<- [= <- <-]].
  simpl in Hb. apply list_elem_of_singleton in Hb as ->.
  rewrite lookup_singleton_eq. by eexists.
Qed.

(** C3, amended: expansion fails, with no partial result, whenever a
    precondition or a reference is violated: [summary] answers a bare 400
    and leaves the store unchanged when the name is absent or blank, is
    not in the store, resolves to an Ingredient, or when some entry
    reached from it lists a sub-item that the store does not hold. It
    also fails when the recursion limit is exceeded (a cycle, or a chain
    deeper than the limit) and when the result cannot be printed (the
    total cook time or a quantity has more than 4300 digits, so
    [jsonify] raises); on a well-formed store these are the only
    failures. *)
Theorem summary_failure_causes (depth : nat) (name : option pystr)
    (cookbook : Cookbook) :
  (summary depth name cookbook).2 = cookbook ∧
  (name = None → (summary depth name cookbook).1 = Status400) ∧
  (∀ n, name = Some n →
     (strip n = [] ∨ cookbook !! n = None ∨
      (∃ k cook_time, cookbook !! n = Some (Ingredient k cook_time)) ∨
      missing_reference cookbook n) →
     (summary depth name cookbook).1 = Status400) ∧
  (∀ n, name = Some n → well_formed cookbook →
     ((summary depth name cookbook).1 = Status400 ↔
      strip n = [] ∨ cookbook !! n = None ∨
      (∃ k cook_time, cookbook !! n = Some (Ingredient k cook_time)) ∨
      missing_reference cookbook n ∨
      (∃ acc', _expand_to_ingredients depth cookbook n 1 []
               = (Raise RecursionError, acc')) ∨
      (∃ total acc,
         _expand_to_ingredients depth cookbook n 1 [] = (Return total, acc) ∧
         (10 ^ max_str_digits <= Z.abs total ∨
          ∃ ing_name qty, (ing_name, qty) ∈ acc ∧
                          10 ^ max_str_digits <= Z.abs qty)))).
Proof.
  assert (∀ n,
     (strip n = [] ∨ cookbook !! n = None ∨
      (∃ k cook_time, cookbook !! n = Some (Ingredient k cook_time)) ∨
      missing_reference cookbook n) →
     (summary depth (Some n) cookbook).1 = Status400) as Hif.
  { intros n H. apply summary_status400_iff.
    destruct H as [Hs|[Hn|[(k & ct & Hn)|Hm]]].
    - by right; left.
    - right; right; left. intros k items. by rewrite Hn.
    - right; right; left. intros k' items. by rewrite Hn.
    - right; right; right; left.
      destruct (_expand_to_ingredients depth cookbook n 1 []) as [[t|e] acc'] eqn:E;
        [|by eexists _, _].
      destruct (returns_no_missing_reference cookbook depth n); [|done].
      by exists 1, [], t, acc'. }
  split_and!.
  - apply summary_keeps_store.
  - by intros ->.
  - intros n ->. apply Hif.
  - intros n -> Hwf. split.
    + intros [->|[Hs|[Hno|[(e & acc' & He)|(t & acc & He & Hser)]]]]%summary_status400_iff.
      * by left.
      * by left.
      * destruct (cookbook !! n) as [[k ct|k items|]|] eqn:Hn.
        -- right; right; left. by exists k, ct.
        -- by destruct (Hno k items).
        -- by destruct (Hwf _ _ Hn) as [(? & ? & _)|(? & ? & _)].
        -- by right; left.
      * apply expand_raise_cause in He as Hcause.
        destruct e as [msg|msg|]; simpl in Hcause.
        -- destruct Hcause as [Hn|Hm]; [by right; left|by right; right; right; left].
        -- destruct Hcause as (b & _ & Hb).
           by destruct (well_formed_not_ill_typed cookbook b Hwf).
        -- right; right; right; right; left. by exists acc'.
      * right; right; right; right; right. exists t, acc. split; [done|].
        by apply (serialisable_summary_body_false n).
    + intros [H|[H|[H|[H|[(acc' & He)|(t & acc & He & Hbig)]]]]];
        [apply Hif; auto 6..| |].
      * apply summary_status400_iff. right; right; right; left. by eexists _, _.
      * apply summary_status400_iff. right; right; right; right.
        exists t, acc. split; [done|]. by apply serialisable_summary_body_false.
Qed.

Lemma summary_failure_causes_witness :
  let cookbook : Cookbook :=
    {[ py "Soup" := Recipe (py "Soup") [mkRequiredItem (py "Leek") (PyInt 2)] ]} in
  (summary 10 (Some (py "Soup")) cookbook).1 = Status400.
Proof.
  intros cookbook.
  destruct (summary_failure_causes 10 (Some (py "Soup")) cookbook)
    as (_ & _ & Hif & Hiff).
  assert (well_formed cookbook) as Hwf.
  { intros key e [<- <-]%lookup_singleton_Some. right. eexists. split; [done|].
    split; [repeat constructor; by eexists|].
    simpl. apply NoDup_singleton. }
  apply (Hiff (py "Soup") eq_refl Hwf).
  right; right; right; left.
  exists (py "Soup"), (py "Leek"). split_and!; [done| |reflexivity].
  exists (py "Soup"), [mkRequiredItem (py "Leek") (PyInt 2)].
  split; [reflexivity|]. simpl. apply list_elem_of_here.
Defined.

(** * Further properties of the code *)

(** ** parse_handwriting: which names pass, and in what form *)

Lemma letter_not_space c : is_ascii_letter c = true → isspace c = false.
Proof.
  unfold is_ascii_letter, isspace. intros H.
  apply not_true_is_false. intros H'. revert H H'.
  rewrite !orb_true_iff, !andb_true_iff, !N.leb_le, !N.eqb_eq. lia.
Qed.

Lemma not_space_of_not_isspace c : isspace c = false → c ≠ space.
Proof. by intros H ->. Qed.

Lemma replace_keeps old new s c :
  c ∈ s → (c =? old)%N = false → c ∈ replace old new s.
Proof.
  intros Hin Hne. unfold replace. apply list_elem_of_fmap.
  exists c. by rewrite Hne.
Qed.

Lemma squash_from_keeps b s c :
  c ∈ s → isspace c = false → c ∈ squash_from b s.
Proof.
  intros Hin Hc. revert b.
  induction s as [|x s IH]; intros b; [by apply elem_of_nil in Hin|].
  apply elem_of_cons in Hin as [<-|Hin]; simpl.
  - rewrite Hc. apply list_elem_of_here.
  - destruct (isspace x); [destruct b|]; auto using list_elem_of_further.
Qed.

Lemma lstrip_keeps s c : c ∈ s → isspace c = false → c ∈ lstrip s.
Proof.
  intros Hin Hc. induction s as [|x s IH]; [done|]. simpl.
  destruct (isspace x) eqn:Hx; [|done].
  apply elem_of_cons in Hin as [->|Hin]; [congruence|auto].
Qed.

Lemma elem_of_rev (s : pystr) c : c ∈ rev s ↔ c ∈ s.
Proof. by rewrite !list_elem_of_In, <-in_rev. Qed.

Lemma strip_keeps s c : c ∈ s → isspace c = false → c ∈ strip s.
Proof.
  intros Hin Hc. unfold strip, rstrip.
  apply elem_of_rev, lstrip_keeps; [|done].
  apply elem_of_rev, lstrip_keeps; done.
Qed.

Lemma cleaned_keeps_letters s c :
  c ∈ s → is_ascii_letter c = true → c ∈ cleaned s.
Proof.
  intros Hin Hc. pose proof (letter_not_space c Hc) as Hsp.
  unfold cleaned. apply strip_keeps; [|done].
  apply squash_from_keeps; [|done].
  unfold remove_non_letters. apply list_elem_of_In, filter_In.
  split; [|by rewrite Hc]. apply list_elem_of_In.
  assert (∀ old, is_ascii_letter old = false → (c =? old)%N = false) as Hne.
  { intros old Hold. apply N.eqb_neq. intros ->. congruence. }
  apply replace_keeps; [apply replace_keeps|]; auto.
Qed.

Lemma cleaned_nil_iff s :
  cleaned s = [] ↔ Forall (λ c, is_ascii_letter c = false) s.
Proof.
  split.
  - intros Hnil. apply Forall_forall. intros c Hin.
    destruct (is_ascii_letter c) eqn:Hc; [|done].
    pose proof (cleaned_keeps_letters s c Hin Hc) as Hc'.
    rewrite Hnil in Hc'. by apply elem_of_nil in Hc'.
  - intros H. unfold cleaned. apply strip_spaces.
    apply squash_from_spaces, remove_non_letters_spaces.
    by do 2 (apply replace_no_letters; [reflexivity|]).
Qed.

(** X1: a raw name is rejected exactly when it holds no ASCII letter;
    one letter anywhere is enough for it to be accepted. *)
Theorem parse_handwriting_rejects_iff_no_letter (recipeName : pystr) :
  parse_handwriting recipeName = None ↔
  Forall (λ c, is_ascii_letter c = false) recipeName.
Proof.
  rewrite <-cleaned_nil_iff. unfold parse_handwriting.
  destruct (cleaned recipeName) as [|c s]; simpl; split; done.
Qed.

Ltac char_cases :=
  unfold is_ascii_letter, is_upper, is_lower, upper, lower, space in *;
  repeat match goal with
         | |- context [(?a <=? ?b)%N] => destruct (N.leb_spec a b)
         | H : context [(?a <=? ?b)%N] |- _ => destruct (N.leb_spec a b)
         end;
  simpl in *; try done; try lia.

Lemma letter_upper_or_lower c :
  is_ascii_letter c = true → is_upper c = true ∨ is_lower c = true.
Proof. unfold is_ascii_letter, is_upper, is_lower. intros H%orb_true_iff. done. Qed.

Lemma upper_is_upper c : is_ascii_letter c = true → is_upper (upper c) = true.
Proof. intros H. char_cases. Qed.

Lemma lower_is_lower c : is_ascii_letter c = true → is_lower (lower c) = true.
Proof. intros H. char_cases. Qed.

Lemma upper_fixed c : is_upper c = true → upper c = c.
Proof. intros H. char_cases. Qed.

Lemma lower_fixed c : is_lower c = true → lower c = c.
Proof. intros H. char_cases. Qed.

Lemma upper_letter c : is_upper c = true → is_ascii_letter c = true.
Proof. unfold is_ascii_letter, is_upper. by intros ->. Qed.

Lemma lower_letter c : is_lower c = true → is_ascii_letter c = true.
Proof. unfold is_ascii_letter, is_lower. intros ->. apply orb_true_r. Qed.

Lemma letter_not_sep c :
  is_ascii_letter c = true → c ≠ space ∧ c ≠ 45%N ∧ c ≠ 95%N.
Proof. intros H. split_and!; intros ->; done. Qed.

Lemma head_squash_from_run s : head (squash_from true s) ≠ Some space.
Proof.
  induction s as [|c s IH]; simpl; [done|].
  destruct (isspace c) eqn:Hc; [done|]. simpl. intros [= ->]. done.
Qed.

Lemma single_spaced_squash_from b s : single_spaced (squash_from b s).
Proof.
  revert b. induction s as [|c s IH]; intros b; simpl; [done|].
  destruct (isspace c) eqn:Hc.
  - destruct b; [apply IH|]. simpl. split; [|apply IH].
    intros _. apply head_squash_from_run.
  - simpl. split; [|apply IH]. intros ->. done.
Qed.

Lemma single_spaced_app a b :
  single_spaced (a ++ b) → single_spaced a ∧ single_spaced b.
Proof.
  induction a as [|c a IH]; simpl; [done|].
  intros [Hc Hrest]. destruct (IH Hrest) as [Ha Hb]. split_and!; [|done..].
  intros Hsp. specialize (Hc Hsp). by destruct a.
Qed.

Lemma lstrip_spec s :
  (∃ ws, s = ws ++ lstrip s) ∧
  ∀ c, head (lstrip s) = Some c → isspace c = false.
Proof.
  induction s as [|x s [[ws Hws] Hhead]]; simpl.
  - split; [by exists []|done].
  - destruct (isspace x) eqn:Hx.
    + split; [|done]. exists (x :: ws). simpl. by rewrite <-Hws.
    + split; [by exists []|]. by intros c [= <-].
Qed.

Lemma last_rev (s : pystr) : last (rev s) = head s.
Proof. destruct s as [|c s]; [done|]. simpl. apply last_snoc. Qed.

Lemma rstrip_spec s :
  (∃ ws, s = rstrip s ++ ws) ∧
  ∀ c, last (rstrip s) = Some c → isspace c = false.
Proof.
  unfold rstrip. destruct (lstrip_spec (rev s)) as [[ws Hws] Hhead]. split.
  - exists (rev ws). rewrite <-rev_app_distr, <-Hws. by rewrite rev_involutive.
  - intros c. rewrite last_rev. apply Hhead.
Qed.

Lemma strip_spec s :
  (single_spaced s → single_spaced (strip s)) ∧
  (∀ c, head (strip s) = Some c → isspace c = false) ∧
  (∀ c, last (strip s) = Some c → isspace c = false).
Proof.
  unfold strip.
  destruct (lstrip_spec s) as [[ws1 H1] Hhead].
  destruct (rstrip_spec (lstrip s)) as [[ws2 H2] Hlast].
  split_and!; [| |done].
  - intros Hs. rewrite H1 in Hs. apply single_spaced_app in Hs as [_ Hs].
    rewrite H2 in Hs. by apply single_spaced_app in Hs as [Hs _].
  - intros c Hc. apply Hhead. rewrite H2.
    by destruct (rstrip (lstrip s)).
Qed.

Lemma split_space_not_nil s : split_space s ≠ [].
Proof.
  destruct s as [|c s]; simpl; [done|].
  destruct (c =? space)%N; [done|]. by destruct (split_space s).
Qed.

(** Joining undoes splitting. *)
Lemma join_split_space s : join_space (split_space s) = s.
Proof.
  induction s as [|c s IH]; simpl; [done|].
  pose proof (split_space_not_nil s) as Hne.
  destruct (c =? space)%N eqn:Hc.
  - apply N.eqb_eq in Hc as ->.
    destruct (split_space s) as [|w ws]; [done|]. simpl in *. by rewrite IH.
  - destruct (split_space s) as [|w ws]; [done|].
    destruct ws; simpl in *; by rewrite <-IH.
Qed.

Lemma split_space_words s :
  single_spaced s → last s ≠ Some space →
  ∃ w ws, split_space s = w :: ws ∧ Forall (λ w, w ≠ []) ws ∧
          (w = [] → s = [] ∨ head s = Some space).
Proof.
  induction s as [|c s IH]; simpl.
  - intros _ _. exists [], []. split_and!; [done|constructor|by left].
  - intros [Hc Hs] Hlast.
    assert (last s ≠ Some space) as Hlast'.
    { destruct s; [done|]. exact Hlast. }
    destruct (IH Hs Hlast') as (w & ws & Hsplit & Hws & Hw).
    rewrite Hsplit. destruct (c =? space)%N eqn:Hcs.
    + apply N.eqb_eq in Hcs as ->. exists [], (w :: ws).
      split_and!; [done| |by right]. constructor; [|done].
      intros Hnil. destruct (Hw Hnil) as [->|Hhead]; [done|].
      by apply Hc.
    + exists (c :: w), ws. split_and!; [done..|]. done.
Qed.

Lemma split_space_letters s :
  Forall (λ c, is_ascii_letter c = true ∨ c = space) s →
  Forall (Forall (λ c, is_ascii_letter c = true)) (split_space s).
Proof.
  induction 1 as [|c s Hc _ IH]; simpl; [by repeat constructor|].
  destruct (c =? space)%N eqn:Hcs; [by constructor|].
  apply N.eqb_neq in Hcs. destruct Hc as [Hc|Hc]; [|done].
  destruct (split_space s) as [|w ws]; [by repeat constructor|].
  inversion IH; subst. constructor; [by constructor|done].
Qed.

Lemma capitalise_capitalised w :
  w ≠ [] → Forall (λ c, is_ascii_letter c = true) w →
  capitalised (capitalise w).
Proof.
  destruct w as [|c rest]; [done|]. intros _ Hw. inversion Hw; subst.
  exists (upper c), (map lower rest). split_and!; [done| |].
  - by apply upper_is_upper.
  - apply Forall_map. eapply Forall_impl; [done|]. apply lower_is_lower.
Qed.

(** The accepted names: one or more capitalised words, one space
    between two words. *)
Lemma parse_handwriting_words recipeName parsed :
  parse_handwriting recipeName = Some parsed →
  ∃ words, words ≠ [] ∧ Forall capitalised words ∧ parsed = join_space words.
Proof.
  unfold parse_handwriting.
  destruct (length (cleaned recipeName) =? 0)%nat eqn:Hlen; [done|].
  apply Nat.eqb_neq in Hlen. intros [= <-].
  set (s := cleaned recipeName) in *.
  assert (single_spaced s ∧
          (∀ c, head s = Some c → isspace c = false) ∧
          (∀ c, last s = Some c → isspace c = false)) as (Hss & Hhead & Hlast).
  { unfold s, cleaned.
    destruct (strip_spec (squash_whitespace
      (remove_non_letters (replace 95 space (replace 45 space recipeName)))))
      as (H1 & H2 & H3).
    split_and!; [|done..]. apply H1, single_spaced_squash_from. }
  destruct (split_space_words s Hss) as (w & ws & Hsplit & Hws & Hw).
  { intros Hsp. by apply Hlast in Hsp. }
  assert (Forall (λ w, w ≠ []) (split_space s)) as Hne.
  { rewrite Hsplit. constructor; [|done]. intros Hnil.
    destruct (Hw Hnil) as [Hs|Hs]; [by rewrite Hs in Hlen|by apply Hhead in Hs]. }
  pose proof (split_space_letters s (cleaned_letters_or_space recipeName)) as Hl.
  exists (map capitalise (split_space s)). split_and!; [| |done].
  - rewrite Hsplit. done.
  - apply Forall_map. rewrite Forall_forall in Hne, Hl |- *.
    intros x Hx. apply capitalise_capitalised; auto.
Qed.

Lemma capitalised_letters w :
  capitalised w → w ≠ [] ∧ Forall (λ c, is_ascii_letter c = true) w.
Proof.
  intros (c & rest & -> & Hc & Hrest). split; [done|].
  constructor; [by apply upper_letter|].
  eapply Forall_impl; [done|]. apply lower_letter.
Qed.

Lemma capitalise_fixed w : capitalised w → capitalise w = w.
Proof.
  intros (c & rest & -> & Hc & Hrest). simpl. rewrite (upper_fixed c Hc).
  f_equal. induction Hrest as [|x rest Hx _ IH]; simpl; [done|].
  by rewrite (lower_fixed x Hx), IH.
Qed.

Lemma join_space_chars words :
  Forall (Forall (λ c, is_ascii_letter c = true)) words →
  Forall (λ c, is_ascii_letter c = true ∨ c = space) (join_space words).
Proof.
  induction 1 as [|w ws Hw Hws IH]; simpl; [constructor|].
  assert (Forall (λ c, is_ascii_letter c = true ∨ c = space) w) as Hw'.
  { eapply Forall_impl; [done|]. by left. }
  destruct ws; [done|]. apply Forall_app. split; [done|].
  constructor; [by right|done].
Qed.

Lemma replace_fixed old new s :
  Forall (λ c, c ≠ old) s → replace old new s = s.
Proof.
  unfold replace. induction 1 as [|c s Hc _ IH]; simpl; [done|].
  apply N.eqb_neq in Hc. by rewrite Hc, IH.
Qed.

Lemma remove_non_letters_fixed s :
  Forall (λ c, is_ascii_letter c = true ∨ c = space) s →
  remove_non_letters s = s.
Proof.
  unfold remove_non_letters. induction 1 as [|c s Hc _ IH]; simpl; [done|].
  rewrite IH. by destruct Hc as [->| ->].
Qed.

Lemma squash_from_letters w u :
  Forall (λ c, is_ascii_letter c = true) w →
  squash_from false (w ++ u) = w ++ squash_from false u.
Proof.
  induction 1 as [|c w Hc _ IH]; simpl; [done|].
  by rewrite (letter_not_space c Hc), IH.
Qed.

Lemma squash_from_word b w u :
  w ≠ [] → Forall (λ c, is_ascii_letter c = true) w →
  squash_from b (w ++ u) = w ++ squash_from false u.
Proof.
  destruct w as [|c w]; [done|]. intros _ Hw. inversion Hw; subst. simpl.
  rewrite (letter_not_space c) by done. f_equal. by apply squash_from_letters.
Qed.

Lemma squash_from_join b words :
  Forall (λ w, w ≠ [] ∧ Forall (λ c, is_ascii_letter c = true) w) words →
  squash_from b (join_space words) = join_space words.
Proof.
  intros Hws. revert b.
  induction Hws as [|w ws [Hne Hw] Hws IH]; intros b; simpl; [done|].
  destruct ws as [|w2 ws].
  - rewrite <-(app_nil_r w) at 1. rewrite squash_from_word by done.
    simpl. apply app_nil_r.
  - rewrite squash_from_word by done. simpl. by rewrite IH.
Qed.

Lemma join_space_head words :
  words ≠ [] →
  Forall (λ w, w ≠ [] ∧ Forall (λ c, is_ascii_letter c = true) w) words →
  ∃ c u, join_space words = c :: u ∧ is_ascii_letter c = true.
Proof.
  destruct words as [|w ws]; [done|]. intros _ Hws.
  inversion Hws as [|? ? [Hne Hw] _]; subst.
  destruct w as [|c w]; [done|]. inversion Hw; subst.
  destruct ws; simpl; eauto.
Qed.

Lemma join_space_last words :
  words ≠ [] →
  Forall (λ w, w ≠ [] ∧ Forall (λ c, is_ascii_letter c = true) w) words →
  ∃ u c, join_space words = u ++ [c] ∧ is_ascii_letter c = true.
Proof.
  intros Hne Hws. induction Hws as [|w ws [Hw Hl] Hws IH]; [done|].
  destruct ws as [|w2 ws].
  - simpl. destruct (exists_last Hw) as (u & c & ->).
    exists u, c. split; [done|].
    apply Forall_app in Hl as [_ Hc]. by inversion Hc.
  - destruct IH as (u & c & Hu & Hc); [done|].
    exists (w ++ space :: u), c. split; [|done].
    change (join_space (w :: w2 :: ws)) with (w ++ space :: join_space (w2 :: ws)).
    rewrite Hu. by rewrite <-app_assoc.
Qed.

Lemma lstrip_fixed c u : isspace c = false → lstrip (c :: u) = c :: u.
Proof. intros Hc. simpl. by rewrite Hc. Qed.

Lemma rstrip_fixed u c : isspace c = false → rstrip (u ++ [c]) = u ++ [c].
Proof.
  intros Hc. unfold rstrip. rewrite rev_unit, lstrip_fixed by done.
  simpl. by rewrite rev_involutive.
Qed.

Lemma split_space_word w :
  Forall (λ c, is_ascii_letter c = true) w → split_space w = [w].
Proof.
  induction 1 as [|c w Hc _ IH]; simpl; [done|].
  destruct (letter_not_sep c Hc) as [Hsp _]. apply N.eqb_neq in Hsp.
  by rewrite Hsp, IH.
Qed.

Lemma split_space_app w u :
  Forall (λ c, is_ascii_letter c = true) w →
  split_space (w ++ space :: u) = w :: split_space u.
Proof.
  induction 1 as [|c w Hc _ IH]; simpl; [done|].
  destruct (letter_not_sep c Hc) as [Hsp _]. apply N.eqb_neq in Hsp.
  by rewrite Hsp, IH.
Qed.

(** Splitting undoes joining, for words without spaces. *)
Lemma split_join_space words :
  words ≠ [] →
  Forall (Forall (λ c, is_ascii_letter c = true)) words →
  split_space (join_space words) = words.
Proof.
  intros Hne Hws. induction Hws as [|w ws Hw Hws IH]; [done|].
  destruct ws as [|w2 ws].
  - simpl. by apply split_space_word.
  - change (join_space (w :: w2 :: ws)) with (w ++ space :: join_space (w2 :: ws)).
    rewrite split_space_app by done. by rewrite IH.
Qed.

(** A name in the accepted form is returned as it is. *)
Lemma parse_handwriting_fixed words :
  words ≠ [] → Forall capitalised words →
  parse_handwriting (join_space words) = Some (join_space words).
Proof.
  intros Hne Hcap.
  assert (Forall (λ w, w ≠ [] ∧ Forall (λ c, is_ascii_letter c = true) w) words)
    as Hws.
  { eapply Forall_impl; [done|]. apply capitalised_letters. }
  assert (Forall (Forall (λ c, is_ascii_letter c = true)) words) as Hl.
  { eapply Forall_impl; [exact Hws|]. by intros w [_ ?]. }
  pose proof (join_space_chars words Hl) as Hchars.
  assert (cleaned (join_space words) = join_space words) as Hclean.
  { unfold cleaned.
    assert (∀ old, is_ascii_letter old = false → old ≠ space →
              replace old space (join_space words) = join_space words) as Hrep.
    { intros old Hold Hsp. apply replace_fixed.
      eapply Forall_impl; [exact Hchars|]. intros c [Hc| ->]; [|done].
      intros ->. congruence. }
    rewrite !Hrep by done. rewrite remove_non_letters_fixed by done.
    unfold squash_whitespace. rewrite squash_from_join by done.
    destruct (join_space_head words Hne Hws) as (c & u & Hcu & Hc).
    destruct (join_space_last words Hne Hws) as (u' & c' & Hcu' & Hc').
    unfold strip. rewrite Hcu, lstrip_fixed by by apply letter_not_space.
    rewrite <-Hcu, Hcu'. apply rstrip_fixed. by apply letter_not_space. }
  unfold parse_handwriting. rewrite Hclean.
  destruct (join_space_head words Hne Hws) as (c & u & Hcu & Hc).
  rewrite Hcu at 1. simpl. rewrite split_join_space by done. do 2 f_equal.
  clear -Hcap. induction Hcap as [|w ws Hw _ IH]; simpl; [done|].
  by rewrite (capitalise_fixed w Hw), IH.
Qed.

(** X2: an accepted name comes back in one form only: one or more
    words, each an upper-case ASCII letter followed by lower-case ASCII
    letters, with exactly one space between two words and none at the
    ends; splitting it at the spaces gives those words back. *)
Theorem parse_handwriting_normal_form (recipeName parsed : pystr) :
  parse_handwriting recipeName = Some parsed →
  ∃ words, words ≠ [] ∧ Forall capitalised words ∧
           parsed = join_space words ∧ split_space parsed = words.
Proof.
  intros (words & Hne & Hcap & ->)%parse_handwriting_words.
  exists words. split_and!; [done..|].
  apply split_join_space; [done|].
  eapply Forall_impl; [done|]. intros w Hw. by apply capitalised_letters.
Qed.

Lemma parse_handwriting_normal_form_witness :
  ∃ words, words ≠ [] ∧ Forall capitalised words ∧
           py "Fried Rice" = join_space words ∧
           split_space (py "Fried Rice") = words.
Proof.
  apply (parse_handwriting_normal_form (py "fried-rice_2")).
  vm_compute. reflexivity.
Defined.

(** X3: normalising is idempotent: an accepted name, sent again, is
    accepted and comes back unchanged. *)
Theorem parse_handwriting_idempotent (recipeName parsed : pystr) :
  parse_handwriting recipeName = Some parsed →
  parse_handwriting parsed = Some parsed.
Proof.
  intros (words & Hne & Hcap & ->)%parse_handwriting_words.
  by apply parse_handwriting_fixed.
Qed.

Lemma parse_handwriting_idempotent_witness :
  parse_handwriting (py "Chicken Soup") = Some (py "Chicken Soup").
Proof.
  apply (parse_handwriting_idempotent (py "   chicken   soup ")).
  vm_compute. reflexivity.
Defined.

(** ** The parse route *)

Lemma dict_get_default_missing d key default :
  (∀ v, (key, v) ∉ d) → dict_get_default d key default = default.
Proof.
  induction d as [|[k v] d IH]; simpl; [done|]. intros Hmiss.
  case_bool_decide as Hk.
  - subst. destruct (Hmiss v). apply list_elem_of_here.
  - apply IH. intros v' Hin. apply (Hmiss v'). by apply list_elem_of_further.
Qed.

(** X4: the parse route answers 200 with the normalised name when the
    body is an object whose [input] is a string with an ASCII letter,
    and the name it sends is never empty and is already in normal form;
    it answers 400 'Invalid recipe name' when [input] is a string
    without a letter or is missing; with any other [input] (a number,
    [null], a list...) an [AttributeError] leaves the handler. *)
Theorem parse_route_outcomes (data : list (pystr * json)) :
  let input := dict_get_default data (py "input") (JStr []) in
  (∀ s c, input = JStr s → c ∈ s → is_ascii_letter c = true →
     ∃ parsed, parse (JDict data) = Parse200 (JDict [(py "msg", JStr parsed)]) ∧
               parsed ≠ [] ∧ parse_handwriting parsed = Some parsed) ∧
  (∀ s, input = JStr s → Forall (λ c, is_ascii_letter c = false) s →
     parse (JDict data) = Parse400 "Invalid recipe name") ∧
  ((∀ v, (py "input", v) ∉ data) →
     parse (JDict data) = Parse400 "Invalid recipe name") ∧
  ((∀ s, input ≠ JStr s) → parse (JDict data) = ParseAttributeError).
Proof.
  intros input. unfold parse. fold input. split_and!.
  - intros s c -> Hin Hc.
    destruct (parse_handwriting s) as [parsed|] eqn:Hparse.
    + exists parsed. split_and!; [done| |].
      * destruct (parse_handwriting_words _ _ Hparse) as (ws & Hne & Hcap & ->).
        assert (Forall (λ w, w ≠ [] ∧
                  Forall (λ c, is_ascii_letter c = true) w) ws) as Hws.
        { eapply Forall_impl; [done|]. apply capitalised_letters. }
        destruct (join_space_head ws Hne Hws) as (c' & u & -> & _). done.
      * destruct (parse_handwriting_words _ _ Hparse) as (ws & Hne & Hcap & ->).
        by apply parse_handwriting_fixed.
    + unfold parse_handwriting in Hparse.
      destruct (cleaned s) as [|x u] eqn:Hclean; [|done].
      apply cleaned_nil_iff in Hclean. rewrite Forall_forall in Hclean.
      rewrite (Hclean c Hin) in Hc. done.
  - intros s -> Hs. apply cleaned_nil_iff in Hs.
    unfold parse_handwriting. by rewrite Hs.
  - intros Hmiss. subst input.
    by rewrite (dict_get_default_missing _ _ _ Hmiss).
  - intros Hnot. destruct input; try done. by destruct (Hnot s).
Qed.

Lemma parse_route_outcomes_witness :
  (∃ parsed,
     parse (JDict [(py "input", JStr (py "meat_ball-7"))])
     = Parse200 (JDict [(py "msg", JStr parsed)]) ∧
     parsed ≠ [] ∧ parse_handwriting parsed = Some parsed) ∧
  parse (JDict [(py "input", JStr (py "12 - 3"))]) = Parse400 "Invalid recipe name" ∧
  parse (JDict []) = Parse400 "Invalid recipe name" ∧
  parse (JDict [(py "input", JInt 3)]) = ParseAttributeError.
Proof.
  split_and!.
  - refine (proj1 (parse_route_outcomes [(py "input", JStr (py "meat_ball-7"))])
              (py "meat_ball-7") 109%N eq_refl _ eq_refl).
    vm_compute. apply list_elem_of_here.
  - refine (proj1 (proj2 (parse_route_outcomes [(py "input", JStr (py "12 - 3"))]))
              (py "12 - 3") eq_refl _).
    repeat constructor.
  - refine (proj1 (proj2 (proj2 (parse_route_outcomes []))) _).
    intros v Hin. by apply elem_of_nil in Hin.
  - refine (proj2 (proj2 (proj2 (parse_route_outcomes [(py "input", JInt 3)]))) _).
    intros s. vm_compute. discriminate.
Defined.

(** ** create_entry: what is accepted, and what it leaves behind *)

Lemma length_eqb_0 (s : pystr) : (length s =? 0)%nat = bool_decide (s = []).
Proof. by destruct s. Qed.

Lemma parse_items_item_json item rest seen_names parsed_items :
  parse_items (item_json item :: rest) seen_names parsed_items =
  if bool_decide (strip item.1 = []) then None
  else if bool_decide (item.1 ∈ seen_names) then None
       else parse_items rest ({[item.1]} ∪ seen_names)
              (parsed_items ++ [required item]).
Proof.
  destruct item as [n q]. simpl. rewrite length_eqb_0.
  replace (dict_get [(py "name", JStr n); (py "quantity", JInt q)] (py "name"))
    with (JStr n) by reflexivity.
  replace (dict_get [(py "name", JStr n); (py "quantity", JInt q)] (py "quantity"))
    with (JInt q) by reflexivity.
  reflexivity.
Qed.

Lemma parse_items_round_trip items seen_names parsed_items :
  NoDup items.*1 →
  Forall (λ item, strip item.1 ≠ [] ∧ item.1 ∉ seen_names) items →
  parse_items (map item_json items) seen_names parsed_items
  = Some (parsed_items ++ map required items).
Proof.
  revert seen_names parsed_items.
  induction items as [|item items IH]; intros seen parsed Hnd Hall.
  - simpl. by rewrite app_nil_r.
  - rewrite fmap_cons in Hnd. apply NoDup_cons in Hnd as [Hnotin Hnd].
    apply Forall_cons in Hall as [[Hblank Hseen] Hall].
    change (map item_json (item :: items))
      with (item_json item :: map item_json items).
    rewrite parse_items_item_json.
    rewrite bool_decide_eq_false_2, bool_decide_eq_false_2 by done.
    rewrite IH; [by rewrite <-app_assoc|done|].
    rewrite Forall_forall in Hall |- *. intros it Hit.
    destruct (Hall it Hit) as [Hb Hs]. split; [done|].
    intros [Heq%elem_of_singleton|Hin]%elem_of_union; [|done].
    apply Hnotin. rewrite <-Heq. apply list_elem_of_fmap. by exists it.
Qed.

Lemma parse_items_accepts_only items seen_names parsed_items res :
  parse_items (map item_json items) seen_names parsed_items = Some res →
  NoDup items.*1 ∧
  Forall (λ item, strip item.1 ≠ [] ∧ item.1 ∉ seen_names) items.
Proof.
  revert seen_names parsed_items.
  induction items as [|item items IH]; intros seen parsed.
  - intros _. split; constructor.
  - change (map item_json (item :: items))
      with (item_json item :: map item_json items).
    rewrite parse_items_item_json.
    case_bool_decide as Hblank; [done|]. case_bool_decide as Hseen; [done|].
    intros [Hnd Hall]%IH. split.
    + rewrite fmap_cons. apply NoDup_cons. split; [|done].
      intros (it & Heq & Hit)%list_elem_of_fmap.
      rewrite Forall_forall in Hall. destruct (Hall it Hit) as [_ Hnot].
      apply Hnot, elem_of_union_l, elem_of_singleton. done.
    + constructor; [done|].
      eapply Forall_impl; [exact Hall|]. intros it [Hb Hnot]. split; [done|].
      intros Hin. by apply Hnot, elem_of_union_r.
Qed.

Lemma create_entry_recipe_json (n : pystr) (items : list (pystr * Z))
    (cookbook : Cookbook) :
  create_entry (recipe_json n items) cookbook =
  if (length (strip n) =? 0)%nat then (Status400, cookbook)
  else if bool_decide (is_Some (cookbook !! n)) then (Status400, cookbook)
       else match parse_items (map item_json items) ∅ [] with
            | Some parsed_items =>
                (Status200 tt, <[n := Recipe n parsed_items]> cookbook)
            | None => (Status400, cookbook)
            end.
Proof. reflexivity. Qed.

Lemma create_entry_ingredient_json (n : pystr) (cook_time : json)
    (cookbook : Cookbook) :
  create_entry (ingredient_json n cook_time) cookbook =
  if (length (strip n) =? 0)%nat then (Status400, cookbook)
  else if bool_decide (is_Some (cookbook !! n)) then (Status400, cookbook)
       else match as_int cook_time with
            | Some ct =>
                if ct <? 0 then (Status400, cookbook)
                else (Status200 tt, <[n := Ingredient n ct]> cookbook)
            | None => (Status400, cookbook)
            end.
Proof. reflexivity. Qed.

(** X5: an ingredient payload is accepted exactly when its name is not
    blank and not yet in the store and its cookTime is an int that is
    not negative (JSON [true] and [false] count as the ints 1 and 0, a
    float or a string does not); the store then holds
    [Ingredient(name, cookTime)] under that name and is otherwise as it
    was. *)
Theorem create_entry_ingredient_accepted_iff (n : pystr) (cook_time : json)
    (cookbook cookbook' : Cookbook) :
  create_entry (ingredient_json n cook_time) cookbook = (Status200 tt, cookbook') ↔
  strip n ≠ [] ∧ cookbook !! n = None ∧
  ∃ ct, as_int cook_time = Some ct ∧ 0 <= ct ∧
        cookbook' = <[n := Ingredient n ct]> cookbook.
Proof.
  rewrite create_entry_ingredient_json, length_eqb_0. split.
  - case_bool_decide as Hblank; [done|]. case_bool_decide as Hin; [done|].
    destruct (as_int cook_time) as [ct|]; [|done].
    destruct (ct <? 0) eqn:Hct; [done|]. intros [= <-].
    split_and!; [done|by apply eq_None_not_Some|].
    exists ct. split_and!; [done| |done]. by apply Z.ltb_ge.
  - intros (Hblank & Hfresh & ct & -> & Hct & ->).
    rewrite bool_decide_eq_false_2 by done.
    rewrite bool_decide_eq_false_2 by (by rewrite Hfresh; intros [? ?]).
    apply Z.ltb_ge in Hct. by rewrite Hct.
Qed.

(** X6: a recipe payload is accepted exactly when its name is not blank
    and not yet in the store and its requiredItems have non-blank,
    pairwise distinct names; whether those names exist in the store is
    never looked at, and any int quantity passes, zero and negative
    included. The store then holds the recipe with its items in the
    order sent. *)
Theorem create_entry_recipe_accepted_iff (n : pystr) (items : list (pystr * Z))
    (cookbook cookbook' : Cookbook) :
  create_entry (recipe_json n items) cookbook = (Status200 tt, cookbook') ↔
  strip n ≠ [] ∧ cookbook !! n = None ∧
  NoDup items.*1 ∧ Forall (λ item, strip item.1 ≠ []) items ∧
  cookbook' = <[n := Recipe n (map required items)]> cookbook.
Proof.
  rewrite create_entry_recipe_json, length_eqb_0. split.
  - case_bool_decide as Hblank; [done|]. case_bool_decide as Hin; [done|].
    destruct (parse_items (map item_json items) ∅ []) as [res|] eqn:Hparse;
      [|done].
    intros [= <-]. apply parse_items_accepts_only in Hparse as Hok.
    destruct Hok as [Hnd Hall].
    rewrite parse_items_round_trip in Hparse by done.
    injection Hparse as <-.
    split_and!; [done|by apply eq_None_not_Some|done| |done].
    eapply Forall_impl; [exact Hall|]. by intros it [? _].
  - intros (Hblank & Hfresh & Hnd & Hall & ->).
    rewrite bool_decide_eq_false_2 by done.
    rewrite bool_decide_eq_false_2 by (by rewrite Hfresh; intros [? ?]).
    rewrite parse_items_round_trip; [done..|].
    eapply Forall_impl; [exact Hall|]. intros it Hb. split; [done|].
    apply not_elem_of_empty.
Qed.

Lemma create_entry_ingredient_accepted_iff_witness :
  create_entry (ingredient_json (py "Egg") (JBool true)) ∅
  = (Status200 tt, <[py "Egg" := Ingredient (py "Egg") 1]> ∅).
Proof.
  apply create_entry_ingredient_accepted_iff.
  split_and!; [by vm_compute|reflexivity|].
  exists 1. split_and!; [reflexivity|lia|reflexivity].
Defined.

Lemma create_entry_recipe_accepted_iff_witness :
  create_entry (recipe_json (py "Toast") [(py "Bread", 2); (py "Butter", -1)]) ∅
  = (Status200 tt,
     <[py "Toast" := Recipe (py "Toast")
                       [mkRequiredItem (py "Bread") (PyInt 2);
                        mkRequiredItem (py "Butter") (PyInt (-1))]]> ∅).
Proof.
  apply create_entry_recipe_accepted_iff.
  split_and!; [by vm_compute|reflexivity| | |reflexivity].
  - apply (bool_decide_unpack _). by vm_compute.
  - repeat constructor; by vm_compute.
Defined.

Lemma parse_handwriting_rejects_iff_no_letter_witness :
  parse_handwriting (py "2 - 2") = None.
Proof.
  apply parse_handwriting_rejects_iff_no_letter. repeat constructor.
Defined.

Lemma parse_items_tidy required_items seen_names parsed_items res :
  parse_items required_items seen_names parsed_items = Some res →
  Forall (λ req, strip (name req) ≠ [] ∧ ∃ q, quantity req = PyInt q)
    parsed_items →
  Forall (λ req, strip (name req) ≠ [] ∧ ∃ q, quantity req = PyInt q) res.
Proof.
  revert seen_names parsed_items.
  induction required_items as [|item rest IH]; intros seen parsed; simpl.
  - by intros [= <-].
  - destruct item as [| | | | | |d]; try done.
    destruct (dict_get d (py "name")) as [| | | |s| |]; try done.
    rewrite length_eqb_0. case_bool_decide as Hblank; [done|].
    destruct (as_int (dict_get d (py "quantity"))) as [q|]; [|done].
    case_bool_decide; [done|].
    intros Hres Hparsed. apply IH in Hres; [done|].
    apply Forall_app. split; [done|]. repeat constructor; [done|by eexists].
Qed.

Lemma create_entry_accepts_tidy (data : json) (cookbook cookbook' : Cookbook) :
  create_entry data cookbook = (Status200 tt, cookbook') →
  ∃ key e, cookbook !! key = None ∧ tidy_entry key e ∧
           cookbook' = <[key := e]> cookbook.
Proof.
  unfold create_entry.
  destruct data as [| | | | |l|d]; try done.
  destruct (negb _); [done|].
  destruct (dict_get (unwrap_entry d) (py "name")) as [| | | |n| |]; try done.
  rewrite length_eqb_0. case_bool_decide as Hblank; [done|].
  case_bool_decide as Hin; [done|]. apply eq_None_not_Some in Hin.
  destruct (eq_str _ (py "ingredient")).
  - destruct (as_int _) as [ct|]; [|done].
    destruct (ct <? 0) eqn:Hct; [done|]. apply Z.ltb_ge in Hct.
    intros [= <-]. exists n, (Ingredient n ct). by repeat split.
  - destruct (dict_get (unwrap_entry d) (py "requiredItems"))
      as [| | | | |items|]; try done.
    destruct (parse_items items ∅ []) as [res|] eqn:Hparse; [|done].
    intros [= <-]. exists n, (Recipe n res). split; [done|]. split; [|done].
    split; [done|]. split; [done|]. split.
    + eapply parse_items_well_formed; [done| |constructor..].
      intros x Hx. by apply elem_of_nil in Hx.
    + eapply parse_items_tidy; [done|constructor].
Qed.

Lemma create_entry_rejects_keeps (data : json) (cookbook cookbook' : Cookbook) :
  create_entry data cookbook = (Status400, cookbook') → cookbook' = cookbook.
Proof.
  destruct (create_entry_cases data cookbook)
    as [->|(key & e & _ & _ & _ & ->)]; congruence.
Qed.

(** X7: every store the server can hold is tidy: each key is a
    non-blank name and is the name of the entry under it, no cook time
    is negative, and the required items of each recipe have non-blank,
    pairwise distinct names and int quantities. *)
Theorem reachable_store_tidy (cookbook : Cookbook) :
  reachable cookbook →
  ∀ key e, cookbook !! key = Some e → tidy_entry key e.
Proof.
  induction 1 as [|data cookbook _ IH]; intros key e.
  - by rewrite lookup_empty.
  - destruct (create_entry data cookbook) as [[|[]] cookbook'] eqn:Hcreate; simpl.
    + apply create_entry_rejects_keeps in Hcreate as ->. apply IH.
    + apply create_entry_accepts_tidy in Hcreate as (k & e' & _ & Htidy & ->).
      intros [[<- <-]|[_ Hold]]%lookup_insert_Some; [done|by apply IH].
Qed.

Lemma reachable_store_tidy_witness :
  tidy_entry (py "Egg") (Ingredient (py "Egg") 3).
Proof.
  apply (reachable_store_tidy
           (create_entry (ingredient_json (py "Egg") (JInt 3)) ∅).2).
  - apply reachable_create, reachable_empty.
  - reflexivity.
Defined.

(** ** Sessions *)

Lemma create_entry_preserves (data : json) (cookbook : Cookbook) key e :
  cookbook !! key = Some e → (create_entry data cookbook).2 !! key = Some e.
Proof.
  intros Hkey.
  destruct (create_entry_cases data cookbook)
    as [->|(k & e' & _ & Hfresh & _ & ->)]; [done|]. simpl.
  rewrite lookup_insert_ne; [done|]. intros ->. congruence.
Qed.

Lemma handle_summary_store (depth : nat) (name : option pystr)
    (cookbook : Cookbook) :
  (handle depth (GET_summary name) cookbook).2 = cookbook.
Proof.
  unfold handle. pose proof (summary_keeps_store depth name cookbook) as H.
  by destruct (summary depth name cookbook).
Qed.

Lemma handle_post_store (depth : nat) (data : json) (cookbook : Cookbook) :
  (handle depth (POST_entry data) cookbook).2 = (create_entry data cookbook).2.
Proof. unfold handle. by destruct (create_entry data cookbook). Qed.

Lemma run_cons (depth : nat) (req : request) (reqs : list request)
    (cookbook : Cookbook) :
  run depth (req :: reqs) cookbook =
  ((handle depth req cookbook).1
     :: (run depth reqs (handle depth req cookbook).2).1,
   (run depth reqs (handle depth req cookbook).2).2).
Proof.
  simpl. destruct (handle depth req cookbook) as [r cb1]. simpl.
  by destruct (run depth reqs cb1).
Qed.

(** X8: no session overwrites or removes an entry: what is in the store
    under a name stays there, unchanged, through any sequence of
    requests; and the store a session leaves is again one that entry
    creation alone could have built. *)
Theorem run_preserves_entries (depth : nat) (reqs : list request)
    (cookbook : Cookbook) :
  (∀ key e, cookbook !! key = Some e →
            (run depth reqs cookbook).2 !! key = Some e) ∧
  (reachable cookbook → reachable (run depth reqs cookbook).2).
Proof.
  revert cookbook. induction reqs as [|req reqs IH]; intros cookbook; [done|].
  rewrite run_cons. simpl. destruct (IH (handle depth req cookbook).2) as [IH1 IH2].
  destruct req as [data|name].
  - rewrite handle_post_store in *. split.
    + intros key e Hkey. by apply IH1, create_entry_preserves.
    + intros Hr. by apply IH2, reachable_create.
  - rewrite handle_summary_store in *. done.
Qed.

Lemma run_preserves_entries_witness :
  (run 10 [GET_summary (Some (py "Egg"));
           POST_entry (ingredient_json (py "Egg") (JInt 9));
           POST_entry (recipe_json (py "Egg") [])]
     {[ py "Egg" := Ingredient (py "Egg") 3 ]}).2 !! py "Egg"
  = Some (Ingredient (py "Egg") 3).
Proof.
  apply (proj1 (run_preserves_entries 10 _ {[ py "Egg" := Ingredient (py "Egg") 3 ]})).
  reflexivity.
Defined.

Lemma handle_post (depth : nat) (data : json) (cookbook : Cookbook) :
  handle depth (POST_entry data) cookbook
  = (EntryReply (create_entry data cookbook).1, (create_entry data cookbook).2).
Proof. unfold handle. by destruct (create_entry data cookbook). Qed.

Lemma handle_get (depth : nat) (name : option pystr) (cookbook : Cookbook) :
  handle depth (GET_summary name) cookbook
  = (SummaryReply (summary depth name cookbook).1, cookbook).
Proof.
  unfold handle. pose proof (summary_keeps_store depth name cookbook) as H.
  destruct (summary depth name cookbook). simpl in H. by subst.
Qed.

(** ** The expander: depth, shape of the outcome, termination *)

Lemma expand_items_shape visit required_items m t acc m' t' acc' :
  (∀ n m acc m' acc', shape (visit n m acc) = shape (visit n m' acc')) →
  shape (expand_items visit required_items m t acc)
  = shape (expand_items visit required_items m' t' acc').
Proof.
  intros Hvisit. revert t acc t' acc'.
  induction required_items as [|req rest IH]; intros t acc t' acc'; simpl; [done|].
  destruct (quantity req) as [q|]; [|done].
  specialize (Hvisit (name req) (m * q) acc (m' * q) acc').
  destruct (visit (name req) (m * q) acc) as [[t1|e1] acc1],
           (visit (name req) (m' * q) acc') as [[t2|e2] acc2];
    unfold shape in *; simpl in *; first [done | apply IH].
Qed.

Lemma expand_shape (depth : nat) (cookbook : Cookbook) n m acc m' acc' :
  shape (_expand_to_ingredients depth cookbook n m acc)
  = shape (_expand_to_ingredients depth cookbook n m' acc').
Proof.
  revert n m acc m' acc'.
  induction depth as [|depth IH]; intros n m acc m' acc'; simpl; [done|].
  destruct (cookbook !! n) as [[k ct|k items|]|]; try done.
  by apply expand_items_shape.
Qed.

(** X10: whether a call of the expander returns, and with which
    exception it fails, depends on the store, the name and the recursion
    limit only, never on the multiplier or on what the accumulator
    already holds. *)
Theorem expand_outcome_independent (depth : nat) (cookbook : Cookbook)
    (entry_name : pystr) (multiplier multiplier' : Z) (acc acc' : Acc) :
  shape (_expand_to_ingredients depth cookbook entry_name multiplier acc)
  = shape (_expand_to_ingredients depth cookbook entry_name multiplier' acc').
Proof. apply expand_shape. Qed.

Lemma expand_items_depth_mono visit1 visit2 required_items m t acc :
  (∀ n m acc, shape (visit1 n m acc) ≠ Some RecursionError →
              visit2 n m acc = visit1 n m acc) →
  shape (expand_items visit1 required_items m t acc) ≠ Some RecursionError →
  expand_items visit2 required_items m t acc
  = expand_items visit1 required_items m t acc.
Proof.
  intros Hvisit. revert t acc.
  induction required_items as [|req rest IH]; intros t acc; simpl; [done|].
  destruct (quantity req) as [q|]; [|done].
  specialize (Hvisit (name req) (m * q) acc).
  destruct (visit1 (name req) (m * q) acc) as [[t1|e1] acc1] eqn:Hv1.
  - rewrite Hvisit by done. apply IH.
  - intros Hne. by rewrite Hvisit.
Qed.

Lemma expand_depth_mono (depth depth' : nat) (cookbook : Cookbook) n m acc :
  (depth <= depth')%nat →
  shape (_expand_to_ingredients depth cookbook n m acc) ≠ Some RecursionError →
  _expand_to_ingredients depth' cookbook n m acc
  = _expand_to_ingredients depth cookbook n m acc.
Proof.
  revert depth' n m acc.
  induction depth as [|depth IH]; intros depth' n m acc Hle; simpl; [done|].
  destruct depth' as [|depth']; [lia|]. simpl.
  destruct (cookbook !! n) as [[k ct|k items|]|]; try done.
  apply expand_items_depth_mono. intros n' m' acc'. apply IH. lia.
Qed.

(** X11: the recursion limit matters only when it is hit: if a call
    ends in anything but [RecursionError], be it a result or another
    exception, then under every higher limit it ends the same way, with
    the same total and the same accumulator; [summary] then gives the
    same reply. *)
Theorem expand_depth_irrelevant (depth depth' : nat) (cookbook : Cookbook)
    (entry_name : pystr) (multiplier : Z) (acc : Acc) :
  (depth <= depth')%nat →
  shape (_expand_to_ingredients depth cookbook entry_name multiplier acc)
  ≠ Some RecursionError →
  _expand_to_ingredients depth' cookbook entry_name multiplier acc
  = _expand_to_ingredients depth cookbook entry_name multiplier acc ∧
  summary depth' (Some entry_name) cookbook
  = summary depth (Some entry_name) cookbook.
Proof.
  intros Hle Hshape. split; [by apply expand_depth_mono|].
  assert (_expand_to_ingredients depth' cookbook entry_name 1 []
          = _expand_to_ingredients depth cookbook entry_name 1 []) as Heq.
  { apply expand_depth_mono; [done|].
    by rewrite (expand_shape _ _ _ _ _ multiplier acc). }
  unfold summary. by rewrite Heq.
Qed.

Lemma expand_depth_irrelevant_witness :
  let cookbook : Cookbook :=
    <[py "R" := Recipe (py "R") [mkRequiredItem (py "I") (PyInt 2)]]>
      (<[py "I" := Ingredient (py "I") 5]> ∅) in
  _expand_to_ingredients 1000 cookbook (py "R") 1 []
  = _expand_to_ingredients 2 cookbook (py "R") 1 [].
Proof.
  intros cookbook.
  refine (proj1 (expand_depth_irrelevant 2 1000 cookbook (py "R") 1 [] _ _)).
  - lia.
  - vm_compute. discriminate.
Defined.

Lemma expand_items_returns_all visit required_items m t acc :
  Forall (λ req, (∃ q, quantity req = PyInt q) ∧
                 ∀ m acc, ∃ t' acc', visit (name req) m acc = (Return t', acc'))
    required_items →
  ∃ t' acc', expand_items visit required_items m t acc = (Return t', acc').
Proof.
  intros Hall. revert t acc.
  induction Hall as [|req rest [[q Hq] Hv] _ IH]; intros t acc; simpl; [eauto|].
  rewrite Hq. destruct (Hv (m * q) acc) as (t1 & acc1 & ->). apply IH.
Qed.

Lemma expand_returns_of_rank (cookbook : Cookbook) (rank : pystr → nat)
    (depth : nat) n m acc :
  well_formed cookbook → closed cookbook →
  (∀ a b, requires cookbook a b → (rank b < rank a)%nat) →
  (rank n < depth)%nat → is_Some (cookbook !! n) →
  ∃ t acc', _expand_to_ingredients depth cookbook n m acc = (Return t, acc').
Proof.
  intros Hwf Hclosed Hrank. revert n m acc.
  induction depth as [|depth IH]; intros n m acc Hlt [e He]; [lia|].
  simpl. rewrite He.
  destruct (Hwf n e He) as [(ct & -> & _)|(items & -> & Hq & _)]; [eauto|].
  apply expand_items_returns_all. rewrite Forall_forall in Hq |- *.
  intros req Hreq. split; [by apply Hq|]. intros m' acc'.
  assert (requires cookbook n (name req)) as Hedge.
  { exists n, items. split; [done|]. apply list_elem_of_fmap. by exists req. }
  apply IH; [|by apply (Hclosed n)].
  specialize (Hrank _ _ Hedge). lia.
Qed.

(** X12: on a well-formed store in which every required item exists
    and the requirements have a rank that strictly decreases along
    them (so there is no cycle), expansion succeeds as soon as the
    recursion limit exceeds the rank of the name: the expander returns
    for every multiplier and accumulator, and for a recipe with a
    non-blank name [summary] answers 200 with that result, unless the
    total or a quantity is too long to print (more than 4300 digits),
    when it answers 400. *)
Theorem acyclic_expansion_returns (cookbook : Cookbook) (rank : pystr → nat)
    (depth : nat) (n : pystr) :
  well_formed cookbook → closed cookbook →
  (∀ a b, requires cookbook a b → (rank b < rank a)%nat) →
  (rank n < depth)%nat → is_Some (cookbook !! n) →
  (∀ multiplier acc, ∃ total acc',
     _expand_to_ingredients depth cookbook n multiplier acc
     = (Return total, acc')) ∧
  (∀ k required_items,
     cookbook !! n = Some (Recipe k required_items) → strip n ≠ [] →
     ∃ total acc,
       _expand_to_ingredients depth cookbook n 1 [] = (Return total, acc) ∧
       summary depth (Some n) cookbook
       = (if serialisable (summary_body n total acc)
          then Status200 (summary_body n total acc) else Status400,
          cookbook)).
Proof.
  intros Hwf Hclosed Hrank Hlt Hn.
  assert (∀ multiplier acc, ∃ total acc',
     _expand_to_ingredients depth cookbook n multiplier acc
     = (Return total, acc')) as Hret.
  { intros m acc. by eapply expand_returns_of_rank. }
  split; [done|]. intros k items Hk Hblank.
  destruct (Hret 1 []) as (total & acc' & Hexp).
  exists total, acc'. split; [done|].
  rewrite (summary_of_recipe _ _ _ _ _ Hblank Hk), Hexp. unfold jsonify.
  by destruct (serialisable (summary_body n total acc')).
Qed.

Lemma acyclic_expansion_returns_witness :
  let cookbook : Cookbook :=
    (create_entry (recipe_json (py "R") [(py "I", 2)])
       (create_entry (ingredient_json (py "I") (JInt 5)) ∅).2).2 in
  ∃ total acc',
    _expand_to_ingredients 2 cookbook (py "R") 1 [] = (Return total, acc').
Proof.
  intros cookbook.
  assert (cookbook =
          <[py "R" := Recipe (py "R") [mkRequiredItem (py "I") (PyInt 2)]]>
            (<[py "I" := Ingredient (py "I") 5]> ∅)) as Hcb by reflexivity.
  assert (∀ a b, requires cookbook a b → a = py "R" ∧ b = py "I") as Hreq.
  { intros a b (k & items & Ha & Hb). rewrite Hcb in Ha.
    apply lookup_insert_Some in Ha as [[<- [= <- <-]]|[_ Ha]].
    - simpl in Hb. by apply list_elem_of_singleton in Hb as ->.
    - apply lookup_insert_Some in Ha as [[_ [=]]|[_ Ha]].
      by rewrite lookup_empty in Ha. }
  refine (proj1 (acyclic_expansion_returns cookbook
            (λ s, if bool_decide (s = py "R") then 1%nat else 0%nat)
            2 (py "R") _ _ _ _ _) 1 []).
  - apply reachable_well_formed. unfold cookbook.
    apply reachable_create, reachable_create, reachable_empty.
  - intros a b [-> ->]%Hreq. by eexists.
  - intros a b [-> ->]%Hreq. vm_compute. lia.
  - vm_compute. lia.
  - by eexists.
Defined.

(** ** The accumulator *)

Lemma expand_items_grows visit required_items m t acc r acc' :
  (∀ n m acc r acc', visit n m acc = (r, acc') →
     acc.*1 `prefix_of` acc'.*1 ∧ (NoDup acc.*1 → NoDup acc'.*1)) →
  expand_items visit required_items m t acc = (r, acc') →
  acc.*1 `prefix_of` acc'.*1 ∧ (NoDup acc.*1 → NoDup acc'.*1).
Proof.
  intros Hvisit. revert t acc.
  induction required_items as [|req rest IH]; intros t acc; simpl.
  - by intros [= _ <-].
  - destruct (quantity req) as [q|]; [|by intros [= _ <-]].
    destruct (visit (name req) (m * q) acc) as [[t1|e1] acc1] eqn:Hv;
      apply Hvisit in Hv as [Hpre Hnd].
    + intros [Hpre' Hnd']%IH. split; [by etrans|auto].
    + by intros [= _ <-].
Qed.

Lemma expand_grows (depth : nat) (cookbook : Cookbook) n m acc r acc' :
  _expand_to_ingredients depth cookbook n m acc = (r, acc') →
  acc.*1 `prefix_of` acc'.*1 ∧ (NoDup acc.*1 → NoDup acc'.*1).
Proof.
  revert n m acc r acc'.
  induction depth as [|depth IH]; intros n m acc r acc'; simpl.
  - by intros [= _ <-].
  - destruct (cookbook !! n) as [[k ct|k items|]|]; try by intros [= _ <-].
    + intros [= _ <-]. apply acc_set_grows.
    + apply expand_items_grows. apply IH.
Qed.

Lemma acc_of_first_seen m paths (acc : Acc) :
  (acc_of m paths acc).*1
  = first_seen_order acc.*1 (map (λ p, p.1.2) paths).
Proof.
  unfold acc_of, first_seen_order. revert acc.
  induction paths as [|[[qs n] ct] paths IH]; intros acc; [done|].
  cbn [fold_left map fst snd]. rewrite IH. f_equal.
  unfold acc_add. apply acc_set_keys.
Qed.

(** X13: the expander only ever adds to the accumulator: the names it
    held stay where they were, new names go to the end, and no name
    comes to stand twice, whether the call returns or raises. So the
    ingredients list of a 200 summary is the expander's accumulator read
    in order: it names the ingredients in the order in which the
    traversal first reached them, and none twice. *)
Theorem expand_accumulator_grows (depth : nat) (cookbook : Cookbook) :
  (∀ entry_name multiplier acc r acc',
     _expand_to_ingredients depth cookbook entry_name multiplier acc = (r, acc') →
     acc.*1 `prefix_of` acc'.*1 ∧ (NoDup acc.*1 → NoDup acc'.*1)) ∧
  (∀ n body cookbook',
     summary depth (Some n) cookbook = (Status200 body, cookbook') →
     ∃ total acc,
       _expand_to_ingredients depth cookbook n 1 [] = (Return total, acc) ∧
       body = JDict [(py "name", JStr n); (py "cookTime", JInt total);
                     (py "ingredients", JList (ingredients_list acc))] ∧
       map item_name_of (ingredients_list acc) = map JStr acc.*1 ∧
       acc.*1 = first_seen_order []
                  (map (λ p, p.1.2) (leaf_paths depth cookbook n)) ∧
       NoDup acc.*1).
Proof.
  split; [intros *; apply expand_grows|].
  intros n body cookbook'. unfold summary.
  destruct (_ || _); [done|].
  destruct (cookbook !! n) as [[k ct|k items|]|]; try done.
  destruct (_expand_to_ingredients depth cookbook n 1 []) as [[t|e] acc] eqn:E;
    [|done].
  unfold jsonify. destruct (serialisable _); [|done]. intros [= <- <-].
  exists t, acc. split_and!; [done..| | |].
  - clear E. induction acc as [|[k' v] acc IH]; [done|].
    rewrite fmap_cons. cbn [map fst]. rewrite <-IH. reflexivity.
  - apply expand_path_products in E as [_ ->]. apply acc_of_first_seen.
  - apply expand_grows in E as [_ Hnd]. apply Hnd. constructor.
Qed.

Lemma expand_accumulator_grows_witness :
  let cookbook : Cookbook :=
    <[py "R" := Recipe (py "R") [mkRequiredItem (py "I") (PyInt 2);
                                 mkRequiredItem (py "J") (PyInt 1)]]>
      (<[py "I" := Ingredient (py "I") 5]> ∅) in
  [py "J"] `prefix_of`
    (_expand_to_ingredients 5 cookbook (py "R") 1 [(py "J", 4)]).2.*1.
Proof.
  intros cookbook.
  destruct (_expand_to_ingredients 5 cookbook (py "R") 1 [(py "J", 4)])
    as [r acc'] eqn:E.
  exact (proj1 (proj1 (expand_accumulator_grows 5 cookbook) _ _ _ _ _ E)).
Defined.

Lemma acc_get_acc_of key m paths (acc : Acc) :
  acc_get (acc_of m paths acc) key 0
  = acc_get acc key 0 + quantity_of key m paths.
Proof.
  unfold acc_of, quantity_of. revert acc.
  induction paths as [|[[qs n] ct] paths IH]; intros acc; simpl; [lia|].
  rewrite IH. unfold acc_add. case_bool_decide as Hn.
  - subst. rewrite acc_get_set_eq. lia.
  - rewrite acc_get_set_ne by done. lia.
Qed.

(** X14: the quantity reported for an ingredient is the sum, over all
    the paths of the traversal that end in that ingredient, of the
    product of the quantities along the path (times the root
    multiplier), added to what the accumulator held for it; an
    ingredient reached by several routes is counted once per route. *)
Theorem expand_quantity_is_path_sum (depth : nat) (cookbook : Cookbook)
    (entry_name : pystr) (multiplier : Z) (acc : Acc) (total : Z) (acc' : Acc) :
  _expand_to_ingredients depth cookbook entry_name multiplier acc
  = (Return total, acc') →
  ∀ key, acc_get acc' key 0
         = acc_get acc key 0
           + quantity_of key multiplier (leaf_paths depth cookbook entry_name).
Proof.
  intros [_ ->]%expand_path_products key. apply acc_get_acc_of.
Qed.

Lemma expand_quantity_is_path_sum_witness :
  let cookbook : Cookbook :=
    <[py "R" := Recipe (py "R") [mkRequiredItem (py "A") (PyInt 2);
                                 mkRequiredItem (py "I") (PyInt 3)]]>
      (<[py "A" := Recipe (py "A") [mkRequiredItem (py "I") (PyInt 5)]]>
         (<[py "I" := Ingredient (py "I") 1]> ∅)) in
  acc_get [(py "I", 13)] (py "I") 0
  = acc_get [] (py "I") 0 + quantity_of (py "I") 1 (leaf_paths 3 cookbook (py "R")).
Proof.
  intros cookbook.
  apply (expand_quantity_is_path_sum 3 cookbook (py "R") 1 [] 13 [(py "I", 13)]).
  vm_compute. reflexivity.
Defined.

Lemma acc_get_nonneg (acc : Acc) key :
  Forall (λ kv, 0 <= kv.2) acc → 0 <= acc_get acc key 0.
Proof.
  induction 1 as [|[k v] acc Hv _ IH]; simpl; [lia|]. by case_bool_decide.
Qed.

Lemma acc_set_nonneg (acc : Acc) key value :
  0 <= value → Forall (λ kv, 0 <= kv.2) acc →
  Forall (λ kv, 0 <= kv.2) (acc_set acc key value).
Proof.
  intros Hv. induction 1 as [|[k v] acc Hk Hacc IH]; simpl.
  - by repeat constructor.
  - case_bool_decide; by constructor.
Qed.

Lemma expand_items_nonneg visit required_items m t acc t' acc' :
  (∀ req q m acc t' acc',
     req ∈ required_items → quantity req = PyInt q → 0 <= m →
     Forall (λ kv, 0 <= kv.2) acc →
     visit (name req) (m * q) acc = (Return t', acc') →
     0 <= t' ∧ Forall (λ kv, 0 <= kv.2) acc') →
  0 <= m → 0 <= t → Forall (λ kv, 0 <= kv.2) acc →
  expand_items visit required_items m t acc = (Return t', acc') →
  0 <= t' ∧ Forall (λ kv, 0 <= kv.2) acc'.
Proof.
  intros Hvisit Hm. revert t acc.
  induction required_items as [|req rest IH]; intros t acc Ht Hacc; simpl.
  - by intros [= <- <-].
  - destruct (quantity req) as [q|] eqn:Hq; [|done].
    destruct (visit (name req) (m * q) acc) as [[t1|e1] acc1] eqn:Hv; [|done].
    eapply Hvisit in Hv as [Ht1 Hacc1]; [|apply list_elem_of_here|done..].
    apply IH; [|lia|done].
    intros req' q' m' a' t'' a'' Hin. apply Hvisit. by apply list_elem_of_further.
Qed.

(** X15: where no cook time and no quantity is negative, nothing
    reported is: called with a multiplier and an accumulator that are
    not negative, the expander returns a total that is not negative and
    leaves no negative quantity in the accumulator. *)
Theorem expand_nonnegative (depth : nat) (cookbook : Cookbook)
    (entry_name : pystr) (multiplier : Z) (acc : Acc) (total : Z) (acc' : Acc) :
  nonnegative cookbook →
  0 <= multiplier → Forall (λ kv, 0 <= kv.2) acc →
  _expand_to_ingredients depth cookbook entry_name multiplier acc
  = (Return total, acc') →
  0 <= total ∧ Forall (λ kv, 0 <= kv.2) acc'.
Proof.
  intros Hstore. revert entry_name multiplier acc total acc'.
  induction depth as [|depth IH]; intros n m acc t acc' Hm Hacc; simpl; [done|].
  destruct (cookbook !! n) as [[k ct|k items|]|] eqn:Hn; try done.
  - intros [= <- <-]. specialize (Hstore n _ Hn). simpl in Hstore. split; [nia|].
    apply acc_set_nonneg; [|done]. pose proof (acc_get_nonneg acc k Hacc). lia.
  - apply expand_items_nonneg; [|done|lia|done].
    intros req q m' a t' a' Hin Hq Hm' Ha. apply IH; [|done].
    specialize (Hstore n _ Hn). simpl in Hstore.
    rewrite Forall_forall in Hstore. specialize (Hstore req Hin q Hq). nia.
Qed.

Lemma expand_nonnegative_witness :
  let cookbook : Cookbook :=
    <[py "R" := Recipe (py "R") [mkRequiredItem (py "I") (PyInt 2)]]>
      (<[py "I" := Ingredient (py "I") 5]> ∅) in
  0 <= 10 ∧ Forall (λ kv : pystr * Z, 0 <= kv.2) [(py "I", 2)].
Proof.
  intros cookbook.
  apply (expand_nonnegative 2 cookbook (py "R") 1 [] 10 [(py "I", 2)]).
  - intros key e Hkey.
    apply lookup_insert_Some in Hkey as [[_ <-]|[_ Hkey]].
    + repeat constructor. simpl. intros q [= <-]. lia.
    + apply lookup_insert_Some in Hkey as [[_ <-]|[_ Hkey]]; [simpl; lia|].
      by rewrite lookup_empty in Hkey.
  - lia.
  - constructor.
  - vm_compute. reflexivity.
Defined.

(** ** Creating, then asking *)

Lemma create_entry_ingredient_ok (n : pystr) (ct : Z) (cookbook : Cookbook) :
  strip n ≠ [] → cookbook !! n = None → 0 <= ct →
  create_entry (ingredient_json n (JInt ct)) cookbook
  = (Status200 tt, <[n := Ingredient n ct]> cookbook).
Proof.
  intros Hblank Hfresh Hct. rewrite create_entry_ingredient_json, length_eqb_0.
  rewrite bool_decide_eq_false_2 by done.
  rewrite bool_decide_eq_false_2 by (by rewrite Hfresh; intros [? ?]).
  simpl. apply Z.ltb_ge in Hct. by rewrite Hct.
Qed.

Lemma create_entry_recipe_one_ok (n item : pystr) (q : Z) (cookbook : Cookbook) :
  strip n ≠ [] → strip item ≠ [] → cookbook !! n = None →
  create_entry (recipe_json n [(item, q)]) cookbook
  = (Status200 tt, <[n := Recipe n [mkRequiredItem item (PyInt q)]]> cookbook).
Proof.
  intros Hblank Hitem Hfresh. rewrite create_entry_recipe_json, length_eqb_0.
  rewrite bool_decide_eq_false_2 by done.
  rewrite bool_decide_eq_false_2 by (by rewrite Hfresh; intros [? ?]).
  rewrite parse_items_round_trip; [done| |].
  - apply NoDup_singleton.
  - repeat constructor; [done|apply not_elem_of_empty].
Qed.

Lemma summary_recipe_one_item (depth : nat) (cookbook : Cookbook)
    (R I : pystr) (ct q : Z) :
  cookbook !! R = Some (Recipe R [mkRequiredItem I (PyInt q)]) →
  cookbook !! I = Some (Ingredient I ct) →
  strip R ≠ [] → (2 <= depth)%nat →
  summary depth (Some R) cookbook
  = (if int_repr_ok (ct * q) && int_repr_ok q
     then Status200 (summary_body R (ct * q) [(I, q)]) else Status400,
     cookbook).
Proof.
  intros HR HI Hblank Hdepth. destruct depth as [|[|depth]]; [lia..|].
  assert (_expand_to_ingredients (S (S depth)) cookbook R 1 []
          = (Return (ct * q), [(I, q)])) as Hexpand.
  { cbn [_expand_to_ingredients]. rewrite HR.
    cbn [expand_items quantity name _expand_to_ingredients]. rewrite HI.
    cbn [acc_set acc_get]. do 2 f_equal; [lia|]. do 2 f_equal. lia. }
  rewrite (summary_of_recipe _ _ _ _ _ Hblank HR), Hexpand. unfold jsonify.
  rewrite serialisable_summary_body. cbn [forallb snd].
  rewrite andb_true_r. by destruct (_ && _).
Qed.

(** X16: create an ingredient [I] with cook time [ct] and a recipe [R]
    requiring [q] of [I], in either order, under names that are not
    blank and not yet taken: both requests are accepted, and the summary
    of [R] then reports cook time [ct * q] and the single ingredient
    [I] with quantity [q]; unless [ct * q] or [q] is too long to print
    (more than 4300 digits), when the summary is answered with 400. *)
Theorem create_then_summary (depth : nat) (cookbook : Cookbook)
    (R I : pystr) (ct q : Z) :
  strip R ≠ [] → strip I ≠ [] → R ≠ I →
  cookbook !! R = None → cookbook !! I = None →
  0 <= ct → (2 <= depth)%nat →
  let answers :=
    [EntryReply (Status200 tt); EntryReply (Status200 tt);
     SummaryReply
       (if int_repr_ok (ct * q) && int_repr_ok q
        then Status200
               (JDict [(py "name", JStr R); (py "cookTime", JInt (ct * q));
                       (py "ingredients",
                        JList [JDict [(py "name", JStr I);
                                      (py "quantity", JInt q)]])])
        else Status400)] in
  (run depth [POST_entry (ingredient_json I (JInt ct));
              POST_entry (recipe_json R [(I, q)]);
              GET_summary (Some R)] cookbook).1 = answers ∧
  (run depth [POST_entry (recipe_json R [(I, q)]);
              POST_entry (ingredient_json I (JInt ct));
              GET_summary (Some R)] cookbook).1 = answers.
Proof.
  intros HR HI Hne HfreshR HfreshI Hct Hdepth answers. split.
  - rewrite !run_cons, !handle_post, handle_get. cbn [fst snd run].
    rewrite create_entry_ingredient_ok by done. cbn [fst snd].
    rewrite create_entry_recipe_one_ok; [|done..|by rewrite lookup_insert_ne].
    cbn [fst snd]. erewrite summary_recipe_one_item; [done| | |done..].
    + apply lookup_insert_eq.
    + rewrite lookup_insert_ne by done. apply lookup_insert_eq.
  - rewrite !run_cons, !handle_post, handle_get. cbn [fst snd run].
    rewrite create_entry_recipe_one_ok by done. cbn [fst snd].
    rewrite create_entry_ingredient_ok; [|done|by rewrite lookup_insert_ne|done].
    cbn [fst snd]. erewrite summary_recipe_one_item; [done| | |done..].
    + rewrite lookup_insert_ne by done. apply lookup_insert_eq.
    + apply lookup_insert_eq.
Qed.

Lemma create_then_summary_witness :
  (run 2 [POST_entry (ingredient_json (py "Egg") (JInt 3));
          POST_entry (recipe_json (py "Omelette") [(py "Egg", 4)]);
          GET_summary (Some (py "Omelette"))] ∅).1
  = [EntryReply (Status200 tt); EntryReply (Status200 tt);
     SummaryReply
       (Status200
          (JDict [(py "name", JStr (py "Omelette")); (py "cookTime", JInt (3 * 4));
                  (py "ingredients",
                   JList [JDict [(py "name", JStr (py "Egg"));
                                 (py "quantity", JInt 4)]])]))].
Proof.
  assert (strip (py "Omelette") ≠ []) as H1 by by vm_compute.
  assert (strip (py "Egg") ≠ []) as H2 by by vm_compute.
  assert (py "Omelette" ≠ py "Egg") as H3 by by vm_compute.
  pose proof (proj1 (create_then_summary 2 ∅ (py "Omelette") (py "Egg") 3 4
                       H1 H2 H3 eq_refl eq_refl ltac:(lia) ltac:(lia))) as H.
  rewrite (int_repr_ok_small (3 * 4)), (int_repr_ok_small 4) in H by lia.
  exact H.
Defined.

(** ** parse_handwriting and the case of the input *)

Lemma lower_cases c :
  (is_upper c = true ∧ lower c = (c + 32)%N ∧
   is_ascii_letter c = true ∧ is_ascii_letter (c + 32) = true) ∨
  (is_upper c = false ∧ lower c = c).
Proof.
  unfold lower, is_upper, is_ascii_letter.
  destruct ((65 <=? c) && (c <=? 90))%N eqn:Hc; [left|by right].
  split_and!; [done..|].
  apply andb_true_iff in Hc as [H1%N.leb_le H2%N.leb_le].
  apply orb_true_iff. right. apply andb_true_iff. split; apply N.leb_le; lia.
Qed.

Lemma lower_isspace c : isspace (lower c) = isspace c.
Proof.
  destruct (lower_cases c) as [(_ & -> & H1 & H2)|[_ ->]]; [|done].
  by rewrite !letter_not_space.
Qed.

Lemma lower_is_letter c : is_ascii_letter (lower c) = is_ascii_letter c.
Proof.
  destruct (lower_cases c) as [(_ & -> & H1 & H2)|[_ ->]]; [|done].
  by rewrite H1, H2.
Qed.

Lemma lower_eqb_sep c old :
  is_ascii_letter old = false → (lower c =? old)%N = (c =? old)%N.
Proof.
  intros Hold.
  destruct (lower_cases c) as [(_ & -> & H1 & H2)|[_ ->]]; [|done].
  transitivity false; [|symmetry]; apply N.eqb_neq; intros <-; congruence.
Qed.

Lemma upper_lower c : upper (lower c) = upper c.
Proof. char_cases. Qed.

Lemma lower_lower c : lower (lower c) = lower c.
Proof. char_cases. Qed.

Lemma replace_lower old s :
  is_ascii_letter old = false →
  replace old space (map lower s) = map lower (replace old space s).
Proof.
  intros Hold. unfold replace. rewrite !map_map. apply map_ext. intros c.
  rewrite lower_eqb_sep by done. by destruct (c =? old)%N.
Qed.

Lemma remove_non_letters_lower s :
  remove_non_letters (map lower s) = map lower (remove_non_letters s).
Proof.
  unfold remove_non_letters. induction s as [|c s IH]; simpl; [done|].
  rewrite lower_is_letter, lower_isspace, IH.
  by destruct (is_ascii_letter c || isspace c).
Qed.

Lemma squash_from_lower b s :
  squash_from b (map lower s) = map lower (squash_from b s).
Proof.
  revert b. induction s as [|c s IH]; intros b; simpl; [done|].
  rewrite lower_isspace. destruct (isspace c); [destruct b|]; simpl;
    by rewrite IH.
Qed.

Lemma lstrip_lower s : lstrip (map lower s) = map lower (lstrip s).
Proof.
  induction s as [|c s IH]; simpl; [done|].
  rewrite lower_isspace. by destruct (isspace c).
Qed.

Lemma strip_lower s : strip (map lower s) = map lower (strip s).
Proof.
  unfold strip, rstrip.
  by rewrite lstrip_lower, <-map_rev, lstrip_lower, map_rev.
Qed.

Lemma cleaned_lower s : cleaned (map lower s) = map lower (cleaned s).
Proof.
  unfold cleaned, squash_whitespace.
  by rewrite !replace_lower, remove_non_letters_lower, squash_from_lower,
    strip_lower.
Qed.

Lemma split_space_lower s :
  split_space (map lower s) = map (map lower) (split_space s).
Proof.
  induction s as [|c s IH]; simpl; [done|].
  rewrite (lower_eqb_sep c space) by done. rewrite IH.
  destruct (c =? space)%N; [done|]. by destruct (split_space s).
Qed.

Lemma capitalise_lower w : capitalise (map lower w) = capitalise w.
Proof.
  destruct w as [|c w]; simpl; [done|]. rewrite upper_lower. f_equal.
  rewrite map_map. apply map_ext, lower_lower.
Qed.

Lemma parse_handwriting_lower s :
  parse_handwriting (map lower s) = parse_handwriting s.
Proof.
  unfold parse_handwriting. rewrite cleaned_lower, length_map.
  destruct (length (cleaned s) =? 0)%nat; [done|].
  rewrite split_space_lower, map_map. do 2 f_equal.
  apply map_ext, capitalise_lower.
Qed.

(** X17: the case of the letters sent does not matter: two raw names
    that differ only in the case of their ASCII letters are rejected
    together or normalised to the same name. *)
Theorem parse_handwriting_case_insensitive (recipeName recipeName' : pystr) :
  map lower recipeName = map lower recipeName' →
  parse_handwriting recipeName = parse_handwriting recipeName'.
Proof.
  intros Heq.
  by rewrite <-(parse_handwriting_lower recipeName), Heq, parse_handwriting_lower.
Qed.

Lemma parse_handwriting_case_insensitive_witness :
  parse_handwriting (py "fRIED-rice") = parse_handwriting (py "Fried-RICE").
Proof.
  apply parse_handwriting_case_insensitive. vm_compute. reflexivity.
Defined.

(** ** Which ingredients are listed *)

Lemma acc_of_keys m paths (acc : Acc) key :
  key ∈ (acc_of m paths acc).*1 ↔
  key ∈ acc.*1 ∨ ∃ qs ct, (qs, key, ct) ∈ paths.
Proof.
  unfold acc_of. revert acc.
  induction paths as [|[[qs n] ct] paths IH]; intros acc; simpl.
  - split; [by left|]. intros [?|(qs & ct & H)]; [done|].
    by apply elem_of_nil in H.
  - rewrite IH. unfold acc_add. rewrite acc_set_keys. split.
    + intros [Hin|(qs' & ct' & Hin)].
      * case_bool_decide; [by left|].
        apply elem_of_app in Hin as [?| ->%list_elem_of_singleton]; [by left|].
        right. exists qs, ct. apply list_elem_of_here.
      * right. exists qs', ct'. by apply list_elem_of_further.
    + intros [Hin|(qs' & ct' & [Heq|Hin]%elem_of_cons)].
      * left. case_bool_decide; [done|]. apply elem_of_app. by left.
      * injection Heq as -> -> ->. left.
        case_bool_decide; [done|]. apply elem_of_app. right.
        apply list_elem_of_here.
      * right. by exists qs', ct'.
Qed.

(** X18: after a call that returns, the accumulator names exactly the
    ingredients it named before and those the traversal reached: an
    ingredient below a quantity of 0 is listed all the same (with
    nothing added to it), and none is listed that was not reached. *)
Theorem expand_lists_reached_ingredients (depth : nat) (cookbook : Cookbook)
    (entry_name : pystr) (multiplier : Z) (acc : Acc) (total : Z) (acc' : Acc) :
  _expand_to_ingredients depth cookbook entry_name multiplier acc
  = (Return total, acc') →
  ∀ key, key ∈ acc'.*1 ↔
         key ∈ acc.*1 ∨
         ∃ qs cook_time,
           (qs, key, cook_time) ∈ leaf_paths depth cookbook entry_name.
Proof.
  intros [_ ->]%expand_path_products key. apply acc_of_keys.
Qed.

Lemma expand_lists_reached_ingredients_witness :
  let cookbook : Cookbook :=
    <[py "R" := Recipe (py "R") [mkRequiredItem (py "I") (PyInt 0)]]>
      (<[py "I" := Ingredient (py "I") 5]> ∅) in
  py "I" ∈ [(py "I", 0)].*1.
Proof.
  intros cookbook.
  apply (expand_lists_reached_ingredients 2 cookbook (py "R") 1 [] 0
           [(py "I", 0)]); [by vm_compute|].
  right. exists [0], 5. vm_compute. apply list_elem_of_here.
Defined.

(** ** Creations under different names *)

Lemma create_entry_frame (data : json) (cookbook cookbook' : Cookbook) :
  (∀ n, payload_name data = JStr n →
        (cookbook !! n = None ↔ cookbook' !! n = None)) →
  (create_entry data cookbook = (Status400, cookbook) ∧
   create_entry data cookbook' = (Status400, cookbook')) ∨
  (∃ n e, payload_name data = JStr n ∧
          cookbook !! n = None ∧ cookbook' !! n = None ∧
          create_entry data cookbook = (Status200 tt, <[n := e]> cookbook) ∧
          create_entry data cookbook' = (Status200 tt, <[n := e]> cookbook')).
Proof.
  unfold create_entry, payload_name.
  destruct data as [| | | | |l|d]; try (by left).
  destruct (negb _); [by left|].
  destruct (dict_get (unwrap_entry d) (py "name")) as [| | | |n| |];
    try (by left).
  intros Hsame. specialize (Hsame n eq_refl).
  destruct (length (strip n) =? 0)%nat; [by left|].
  destruct (cookbook !! n) as [e|] eqn:Hn.
  { destruct (cookbook' !! n) as [e'|] eqn:Hn'.
    - rewrite !bool_decide_eq_true_2 by by eexists. by left.
    - destruct Hsame as [_ Hsame]. by specialize (Hsame eq_refl). }
  destruct Hsame as [Hsame _]. specialize (Hsame eq_refl). rewrite Hsame.
  rewrite !bool_decide_eq_false_2 by by intros [? ?].
  destruct (eq_str _ (py "ingredient")).
  - destruct (as_int _) as [ct|]; [|by left].
    destruct (ct <? 0); [by left|]. right. by eexists _, _.
  - destruct (dict_get (unwrap_entry d) (py "requiredItems"));
      try (by left).
    destruct (parse_items _ _ _); [|by left]. right. by eexists _, _.
Qed.

(** X19: entry creation looks at the store only to see whether the name
    is taken, so two creations under different names commute: in either
    order each request gets the same reply and the store ends up the
    same. *)
Theorem create_entry_commute (data1 data2 : json) (cookbook : Cookbook) :
  payload_name data1 ≠ payload_name data2 →
  (create_entry data1 (create_entry data2 cookbook).2).1
  = (create_entry data1 cookbook).1 ∧
  (create_entry data2 (create_entry data1 cookbook).2).1
  = (create_entry data2 cookbook).1 ∧
  (create_entry data2 (create_entry data1 cookbook).2).2
  = (create_entry data1 (create_entry data2 cookbook).2).2.
Proof.
  intros Hne.
  assert (∀ a b : json, payload_name a ≠ payload_name b →
            ∀ n, payload_name a = JStr n →
                 cookbook !! n = None ↔ (create_entry b cookbook).2 !! n = None)
    as Hframe.
  { intros a b Hab n Hn.
    destruct (create_entry_cases b cookbook)
      as [->|(k & e & Hk & _ & _ & ->)]; [done|]. simpl.
    rewrite lookup_insert_ne; [done|]. intros ->. congruence. }
  destruct (create_entry_frame data1 cookbook (create_entry data2 cookbook).2)
    as [[H1 H1']|(n1 & e1 & Hn1 & _ & _ & H1 & H1')]; [by apply Hframe|..];
  destruct (create_entry_frame data2 cookbook (create_entry data1 cookbook).2)
    as [[H2 H2']|(n2 & e2 & Hn2 & _ & _ & H2 & H2')];
    try (apply Hframe; congruence);
    rewrite H1', H2'; rewrite H1, H2; simpl; split_and!; try done.
  apply insert_insert_ne. congruence.
Qed.

Lemma create_entry_commute_witness :
  (create_entry (ingredient_json (py "Egg") (JInt 3))
     (create_entry (recipe_json (py "Omelette") [(py "Egg", 2)]) ∅).2).2
  = (create_entry (recipe_json (py "Omelette") [(py "Egg", 2)])
       (create_entry (ingredient_json (py "Egg") (JInt 3)) ∅).2).2.
Proof.
  refine (proj2 (proj2
    (create_entry_commute (recipe_json (py "Omelette") [(py "Egg", 2)])
       (ingredient_json (py "Egg") (JInt 3)) ∅ _))).
  vm_compute. discriminate.
Defined.
